(** * Conway: ingestion, work queue, summarization worker and budget gate

    A shallow embedding of the backend of the Conway GitHub sentinel
    (database.ts, queue.ts, summarization-worker.ts, server.ts, the
    events poller and its repo-context.ts) and of the client of the
    summary endpoint (services/backendStream.ts), with the properties of
    its specification stated and proved against it.

    Conventions.  JavaScript values that the program only moves around
    are kept as [JsVal].  Calls that may throw return [Res]; mutable
    objects are records threaded through the calls.  Everything that the
    program receives from outside (the clock, Math.random, the outcome of
    a fetch, RegExp matching, JSON.parse and JSON.stringify, whether a
    write to a subscriber throws) is an explicit argument. *)

From Stdlib Require Import QArith Qminmax Lqa.
From stdpp Require Import base list strings gmap pretty.

Set Warnings "-register-all".

Open Scope Z_scope.
Open Scope string_scope.

(** ** JavaScript values and the few coercions the program relies on *)

Module Js.

(** A number is kept as its canonical decimal rendering (what
    [String(n)] gives); JSON has no NaN or infinities.  [JObj] lists the
    own properties of an object, each key once.  [JNative] stands for
    a built-in function reached through [Object.prototype]. *)
Inductive JsVal : Type :=
| JUndefined
| JNull
| JBool (b : bool)
| JNum (d : string)
| JStr (s : string)
| JArr (xs : list JsVal)
| JObj (fields : list (string * JsVal))
| JNative (name : string).

Definition string_eqb (a b : string) : bool := bool_decide (a = b).

(** ToBoolean. *)
Definition truthy (v : JsVal) : bool :=
  match v with
  | JUndefined | JNull => false
  | JBool b => b
  | JNum d => negb (string_eqb d "0")
  | JStr s => negb (string_eqb s "")
  | JArr _ | JObj _ | JNative _ => true
  end.

(** [a || b] *)
Definition or_else (a b : JsVal) : JsVal := if truthy a then a else b.

Fixpoint join (sep : string) (parts : list string) : string :=
  match parts with
  | [] => ""
  | [p] => p
  | p :: rest => p +:+ sep +:+ join sep rest
  end.

Definition nullish (v : JsVal) : bool :=
  match v with JUndefined | JNull => true | _ => false end.

Fixpoint assoc (key : string) (fields : list (string * JsVal)) : option JsVal :=
  match fields with
  | [] => None
  | (k, v) :: rest => if string_eqb k key then Some v else assoc key rest
  end.

(** ToString, as used when a value is a property key, fills a template
    or is joined; [None] is a TypeError (Cannot convert object to
    primitive value).  An object is converted by its [toString]: the one
    of [Object.prototype], unless the object has an own property of that
    name, which in a parsed document is never a function; the conversion
    then turns to [valueOf], which gives no primitive either (an own one
    is no function, the inherited one returns the object), and throws.
    An array is converted by [join]: its elements are converted in turn,
    [null] and [undefined] giving the empty string. *)
Fixpoint toString (v : JsVal) : option string :=
  match v with
  | JUndefined => Some "undefined"
  | JNull => Some "null"
  | JBool true => Some "true"
  | JBool false => Some "false"
  | JNum d => Some d
  | JStr s => Some s
  | JArr xs =>
      option_map (join ",")
        ((fix elements (xs : list JsVal) : option (list string) :=
            match xs with
            | [] => Some []
            | x :: rest =>
                match (if nullish x then Some "" else toString x) with
                | Some text => option_map (cons text) (elements rest)
                | None => None
                end
            end) xs)
  | JObj fields =>
      match assoc "toString" fields with
      | Some _ => None
      | None => Some "[object Object]"
      end
  | JNative name => Some ("function " +:+ name +:+ "() { [native code] }")
  end.

(** The texts of the elements of an array, as [join] converts them. *)
Fixpoint elements (xs : list JsVal) : option (list string) :=
  match xs with
  | [] => Some []
  | x :: rest =>
      match (if nullish x then Some "" else toString x) with
      | Some text => option_map (cons text) (elements rest)
      | None => None
      end
  end.

(** [Array.prototype.join] *)
Definition arrayJoin (sep : string) (xs : list JsVal) : option string :=
  option_map (join sep) (elements xs).

Definition newline : string := String (Ascii.ascii_of_nat 10) EmptyString.

(** The double quote. *)
Definition quote : string := String (Ascii.ascii_of_nat 34) EmptyString.

(** [v.key] and [v?.key] for the data keys the program reads (none of
    them is a built-in of Object, Array or String): an own property of
    an object, [undefined] otherwise.  Reading a property of [null] or
    [undefined] without [?.] throws; callers handle that case. *)
Definition prop (key : string) (v : JsVal) : JsVal :=
  match v with
  | JObj fields => default JUndefined (assoc key fields)
  | _ => JUndefined
  end.

(** [String.prototype.includes] *)
Fixpoint includes (needle hay : string) : bool :=
  if String.prefix needle hay then true
  else match hay with
       | EmptyString => false
       | String _ hay' => includes needle hay'
       end.

(** An exception object: its [message], and its [status] property when
    it has one. *)
Record JsError := mkError { message : string; status : option Z }.

Definition Error (msg : string) : JsError := mkError msg None.

(** The TypeError of a conversion that finds no primitive. *)
Definition not_primitive : JsError :=
  Error "Cannot convert object to primitive value".

End Js.
Import Js.

(** Result of a call that may throw. *)
Definition Res (A : Type) : Type := A + JsError.
Definition ret {A} (a : A) : Res A := inl a.
Definition throw {A} (e : JsError) : Res A := inr e.
Definition bind {A B} (m : Res A) (k : A -> Res B) : Res B :=
  match m with inl a => k a | inr e => inr e end.
Arguments ret {A} a /.
Arguments throw {A} e /.
Arguments bind {A B} !m k /.
Notation "x <- m ;; k" := (bind m (fun x => k))
  (at level 100, m at next level, right associativity).

(** ** Shared data *)

Inductive Category := security | code_quality.

#[global] Instance Category_eq_dec : EqDecision Category.
Proof. solve_decision. Defined.

(** A GitHub event as the feed delivers it and as a job carries it:
    [repo?.name] and [actor?.login] may be absent, [payload] is an
    arbitrary document. *)
Record GithubEvent := mkGithubEvent {
  gh_id : string;
  gh_type : string;
  gh_repo_name : option string;
  gh_actor_login : option string;
  gh_created_at : string;
  gh_payload : JsVal
}.

(** A property that is expected to hold a text: the text, [null], or
    no property at all ([undefined]). *)
Inductive Field :=
| Text (s : string)
| Null
| Missing.

Coercion Text : string >-> Field.

(** The [event] of a request to POST /internal/event, which is any
    document: the handler tests its [id] only, so [type] and
    [created_at] need not be there. *)
Record ReceivedEvent := mkReceivedEvent {
  rc_id : string;
  rc_type : Field;
  rc_repo_name : option string;
  rc_actor_login : option string;
  rc_created_at : Field;
  rc_payload : JsVal
}.

(** An event of the feed, received. *)
Definition received (e : GithubEvent) : ReceivedEvent :=
  mkReceivedEvent (gh_id e) (Text (gh_type e)) (gh_repo_name e) (gh_actor_login e)
    (Text (gh_created_at e)) (gh_payload e).

Coercion received : GithubEvent >-> ReceivedEvent.

(** The [features] of a score, as far as the prompt reads them: four
    flags compared with [=== 1] and the failure streak when it is > 0. *)
Record Features := mkFeatures {
  is_workflow_file_change : bool;
  force_push_to_main : bool;
  is_branch_deletion : bool;
  is_new_account : bool;
  workflow_failure_streak : option string
}.

(** A score object: [score] is a number ([None] when the property is
    missing), [is_anomalous] is read for its truth value. *)
Record Score := mkScore {
  score_value : option string;
  is_anomalous : bool;
  features : option Features
}.

Record QueueJob := mkQueueJob {
  eventId : string;
  event : GithubEvent;
  score : option Score;
  repoContext : JsVal;
  job_timestamp : string;
  job_category : Category
}.


(** What the JavaScript runtime computes for the program: the two
    regular expressions of [parseSummaryResponse] (for the fenced one,
    the whole match and its group), JSON.parse and JSON.stringify (plain
    and with indentation 2), JSON.parse of a stored event payload read at
    the fields of an event (the payload of a stored row has a type and a
    creation time, since the row was stored), JSON.stringify of a
    received event, and [Number.prototype.toFixed(3)]. *)
Record Runtime := mkRuntime {
  match_fence : string -> option (string * string);
  match_braces : string -> option string;
  JSON_parse : string -> JsVal + JsError;
  JSON_stringify : JsVal -> string;
  JSON_stringify_indent2 : JsVal -> string;
  parse_event : string -> GithubEvent + JsError;
  stringify_event : ReceivedEvent -> string;
  toFixed3 : string -> string
}.

(** [score?.score || null] *)
Definition score_or_null (sc : option Score) : option string :=
  match sc with
  | Some s =>
      match score_value s with
      | Some d => if truthy (JNum d) then Some d else None
      | None => None
      end
  | None => None
  end.

(** ** database.ts *)

Module Database.

Record Event := mkEvent {
  id : string;
  type : string;
  repo : string;
  actor : string;
  created_at : string;
  payload : string;
  score : option string;
  code_quality_score : option string;
  category : option string;
  repo_context : option string;
  stored_at : string;
  rowid : Z
}.

Record Summary := mkSummary {
  s_id : Z;
  event_id : string;
  event_type : string;
  s_repo : string;
  s_actor : string;
  timestamp : string;
  root_cause : string;
  impact : string;
  next_steps : string;
  raw_summary : string;
  s_created_at : string
}.

(** [Omit<Summary, 'id' | 'created_at'>] *)
Record SummaryInput := mkSummaryInput {
  in_event_id : string;
  in_event_type : string;
  in_repo : string;
  in_actor : string;
  in_timestamp : string;
  in_root_cause : string;
  in_impact : string;
  in_next_steps : string;
  in_raw_summary : string
}.

(** The open connection: the three tables, the AUTOINCREMENT sequence
    of [summaries] and the connection's last insert rowid. *)
Record Conn := mkConn {
  events : list Event;
  summaries : list Summary;
  summaries_seq : Z;
  normal_count : Z;
  last_insert_rowid : Z
}.

(** [private db: BetterSqlite3.Database | null = null] *)
Record t := mk { db : option Conn }.

Definition new : t := mk None.

Definition not_initialized : JsError := Error "Database not initialized".

(** [init] on a fresh file (the entry point of the deployment removes
    the file of the previous run): empty tables, and the 'normal' counter
    inserted at 0, which is the first row the connection inserts. *)
Definition init (_ : t) : t := mk (Some (mkConn [] [] 0 0 1)).

Definition max_rowid (rows : list Event) : Z :=
  foldr (fun e m => Z.max (rowid e) m) 0 rows.

(** What the driver answers when it is handed [undefined] to bind. *)
Definition cannot_bind : JsError :=
  Error "SQLite3 can only bind numbers, strings, bigints, buffers, and null".

(** INSERT OR REPLACE INTO events.  The values are bound first, and a
    missing one is refused; [type] and [created_at] are NOT NULL and
    have no default, so a null aborts the statement, in the order of the
    columns.  Otherwise the new row gets the rowid after the largest one
    in the table and the row with the same primary key, if any, is
    deleted. *)
Definition storeEvent (rt : Runtime) (d : t) (event : ReceivedEvent)
    (score codeQualityScore : option Score) (category : option string)
    (repoContext : JsVal) (now : string) : Res t :=
  match db d with
  | None => throw not_initialized
  | Some c =>
      match rc_type event, rc_created_at event with
      | Missing, _ | _, Missing => throw cannot_bind
      | Null, _ => throw (Error "NOT NULL constraint failed: events.type")
      | _, Null => throw (Error "NOT NULL constraint failed: events.created_at")
      | Text type, Text created_at =>
          let kept := filter (fun r => id r ≠ rc_id event) (events c) in
          let rid := max_rowid (events c) + 1 in
          let row := mkEvent (rc_id event) type
                       (default "unknown" (rc_repo_name event))
                       (default "unknown" (rc_actor_login event))
                       created_at (stringify_event rt event)
                       (score_or_null score) (score_or_null codeQualityScore)
                       category
                       (if truthy repoContext
                        then Some (JSON_stringify rt repoContext) else None)
                       now rid in
          ret (mk (Some (mkConn (kept ++ [row]) (summaries c) (summaries_seq c)
                           (normal_count c) rid)))
      end
  end.

Definition find_summary (eid : string) (rows : list Summary) : option Summary :=
  List.find (fun s => string_eqb (event_id s) eid) rows.

Record StoreResult := mkStoreResult { res_id : Z; wasInserted : bool }.

(** What an INSERT OR IGNORE that skips its row leaves: no row is
    written, but a number has been drawn from the AUTOINCREMENT
    sequence. *)
Definition skip_row (c : Conn) : Conn :=
  mkConn (events c) (summaries c) (summaries_seq c + 1) (normal_count c)
    (last_insert_rowid c).

(** INSERT OR IGNORE INTO summaries, with [event_id] UNIQUE: a row
    whose [event_id] is already present is skipped ([changes] = 0 and
    the last insert rowid keeps its former value). *)
Definition storeSummary (d : t) (s : SummaryInput) (now : string)
  : Res (StoreResult * t) :=
  match db d with
  | None => throw not_initialized
  | Some c =>
      match find_summary (in_event_id s) (summaries c) with
      | Some _ => ret (mkStoreResult (last_insert_rowid c) false, mk (Some (skip_row c)))
      | None =>
          let rid := summaries_seq c + 1 in
          let row := mkSummary rid (in_event_id s) (in_event_type s)
                       (in_repo s) (in_actor s) (in_timestamp s)
                       (in_root_cause s) (in_impact s) (in_next_steps s)
                       (in_raw_summary s) now in
          ret (mkStoreResult rid true,
               mk (Some (mkConn (events c) (summaries c ++ [row]) rid
                           (normal_count c) rid)))
      end
  end.

Definition getEvent (d : t) (eventId : string) : Res (option Event) :=
  match db d with
  | None => throw not_initialized
  | Some c => ret (List.find (fun e => string_eqb (id e) eventId) (events c))
  end.

Definition getSummaryByEventId (d : t) (eventId : string) : Res (option Summary) :=
  match db d with
  | None => throw not_initialized
  | Some c => ret (find_summary eventId (summaries c))
  end.

Definition incrementNormalCounter (d : t) : Res t :=
  match db d with
  | None => throw not_initialized
  | Some c => ret (mk (Some (mkConn (events c) (summaries c) (summaries_seq c)
                               (normal_count c + 1) (last_insert_rowid c))))
  end.

Record ClearResult := mkClearResult { eventsCleared : nat; summariesCleared : nat }.

Definition clearAll (d : t) : Res (ClearResult * t) :=
  match db d with
  | None => throw not_initialized
  | Some c =>
      ret (mkClearResult (length (events c)) (length (summaries c)),
           mk (Some (mkConn [] [] (summaries_seq c) 0 (last_insert_rowid c))))
  end.

(** SELECT COUNT( * ) on the two tables. *)
Definition eventCount (d : t) : nat :=
  match db d with None => 0%nat | Some c => length (events c) end.
Definition summaryCount (d : t) : nat :=
  match db d with None => 0%nat | Some c => length (summaries c) end.

Definition summary_rows (d : t) : list Summary :=
  match db d with None => [] | Some c => summaries c end.

(** The operations a client of the store can issue. *)
Inductive Op :=
| OpStoreEvent (event : ReceivedEvent) (score codeQualityScore : option Score)
    (category : option string) (repoContext : JsVal) (now : string)
| OpStoreSummary (s : SummaryInput) (now : string)
| OpIncrementNormalCounter
| OpClearAll.

(** An operation that throws leaves the store as it was. *)
Definition apply (rt : Runtime) (d : t) (op : Op) : t :=
  match op with
  | OpStoreEvent e sc cq cat ctx now =>
      match storeEvent rt d e sc cq cat ctx now with inl d' => d' | inr _ => d end
  | OpStoreSummary s now =>
      match storeSummary d s now with inl (_, d') => d' | inr _ => d end
  | OpIncrementNormalCounter =>
      match incrementNormalCounter d with inl d' => d' | inr _ => d end
  | OpClearAll => match clearAll d with inl (_, d') => d' | inr _ => d end
  end.

Definition run (rt : Runtime) (ops : list Op) : t := foldl (apply rt) (init new) ops.

End Database.

(** ** queue.ts *)

Module Queue.

(** The queue object.  [redis] is the field of the same name ([None]
    is null).  [client] tells whether the IORedis client built by
    [init] still exists and may call back, whatever [redis] holds: the
    callbacks close over the queue, not over that field.  [redis_list]
    is the list kept by the server under [queueKey]; a job stands for
    its JSON text. *)
Record t := mk {
  redis : option unit;
  useInMemory : bool;
  inMemoryQueue : list QueueJob;
  client : bool;
  redis_list : list QueueJob
}.

Definition new (server_list : list QueueJob) : t :=
  mk None false [] false server_list.

Definition not_initialized : JsError := Error "Queue not initialized".

(** How [await this.redis.connect()] ends. *)
Inductive ConnectOutcome :=
| Connected
| ConnectFailed (e : JsError).

(** Whether the server executes a command or the promise rejects. *)
Inductive RedisIo :=
| Replied
| Rejected (e : JsError).

(** The handler registered with [this.redis.on('connect', ...)]. *)
Definition on_connect (q : t) : t :=
  if client q
  then mk (redis q) false (inMemoryQueue q) (client q) (redis_list q)
  else q.

(** The [retryStrategy] callback: the delay to wait, or [None] (null)
    after which the client gives up for good. *)
Definition retryStrategy (q : t) (times : Z) : option Z * t :=
  if client q then
    if (5 <? times)%Z
    then (None, mk (redis q) true (inMemoryQueue q) false (redis_list q))
    else (Some (Z.min (times * 1000) 10000), q)
  else (None, q).

(** [redisUrl] is [process.env.REDIS_URL]; an empty string is falsy. *)
Definition init (q : t) (redisUrl : option string) (outcome : ConnectOutcome) : t :=
  match redisUrl with
  | None | Some "" => mk (redis q) true (inMemoryQueue q) (client q) (redis_list q)
  | Some _ =>
      let q1 := mk (Some ()) (useInMemory q) (inMemoryQueue q) true (redis_list q) in
      match outcome with
      | Connected => on_connect q1
      | ConnectFailed _ => mk None true (inMemoryQueue q1) (client q1) (redis_list q1)
      end
  end.

Definition push (q : t) (job : QueueJob) (io : RedisIo) : Res t :=
  if useInMemory q then
    ret (mk (redis q) (useInMemory q) (inMemoryQueue q ++ [job]) (client q) (redis_list q))
  else match redis q with
       | None => throw not_initialized
       | Some _ =>
           match io with
           | Replied => ret (mk (redis q) (useInMemory q) (inMemoryQueue q)
                               (client q) (redis_list q ++ [job]))
           | Rejected e => throw e
           end
       end.

(** [pop]: on the in-process backend an empty queue is looked at again
    after the 5 s wait, which nothing in this model fills meanwhile. *)
Definition pop (q : t) (io : RedisIo) : Res (option QueueJob * t) :=
  if useInMemory q then
    match inMemoryQueue q with
    | [] => ret (None, q)
    | job :: rest => ret (Some job, mk (redis q) (useInMemory q) rest (client q) (redis_list q))
    end
  else match redis q with
       | None => throw not_initialized
       | Some _ =>
           match io with
           | Replied =>
               match redis_list q with
               | [] => ret (None, q)
               | job :: rest =>
                   ret (Some job, mk (redis q) (useInMemory q) (inMemoryQueue q) (client q) rest)
               end
           | Rejected e => throw e
           end
       end.

Definition length (q : t) (io : RedisIo) : Res nat :=
  if useInMemory q then ret (List.length (inMemoryQueue q))
  else match redis q with
       | None => throw not_initialized
       | Some _ =>
           match io with
           | Replied => ret (List.length (redis_list q))
           | Rejected e => throw e
           end
       end.

Definition clear (q : t) (io : RedisIo) : Res (nat * t) :=
  if useInMemory q then
    ret (List.length (inMemoryQueue q),
         mk (redis q) (useInMemory q) [] (client q) (redis_list q))
  else match redis q with
       | None => throw not_initialized
       | Some _ =>
           match io with
           | Replied => ret (List.length (redis_list q),
                             mk (redis q) (useInMemory q) (inMemoryQueue q) (client q) [])
           | Rejected e => throw e
           end
       end.

(** The jobs of the backend in use. *)
Definition jobs (q : t) : list QueueJob :=
  if useInMemory q then inMemoryQueue q else redis_list q.

End Queue.

(** The callbacks of the Redis client and the operations of the queue,
    in the order in which they happen. *)
Inductive QueueEvent :=
| QConnect
| QRetry (times : Z)
| QPush (job : QueueJob) (io : Queue.RedisIo)
| QPop (io : Queue.RedisIo)
| QClear (io : Queue.RedisIo).

Definition queue_event (q : Queue.t) (ev : QueueEvent) : Queue.t :=
  match ev with
  | QConnect => Queue.on_connect q
  | QRetry times => (Queue.retryStrategy q times).2
  | QPush job io => match Queue.push q job io with inl q' => q' | inr _ => q end
  | QPop io => match Queue.pop q io with inl (_, q') => q' | inr _ => q end
  | QClear io => match Queue.clear q io with inl (_, q') => q' | inr _ => q end
  end.

Definition queue_events (q : Queue.t) (evs : list QueueEvent) : Queue.t :=
  foldl queue_event q evs.

(** ** The prompt of the summarization worker

    The prompt is kept as the sequence of the blocks that [buildPrompt]
    concatenates; the two role paragraphs and the two response formats
    are fixed texts of the source and are named here. *)

Inductive PromptPart :=
| SecurityAnalystRole
| CodeQualityEngineerRole
| EventDetails (type repo actor created_at : string)
| EventPayload (text : string)
| BehavioralAnalysis (score : option string) (verdict : string)
| KeyRiskSignals (lines : string)
| RepositoryContext (stars age : JsVal) (branchProtection : string)
    (contributors : JsVal) (archived : bool)
| SecurityResponseFormat (score : option string)
| CodeQualityResponseFormat (score : option string).

(** [name || 'N/A'] *)
Definition or_NA (name : option string) : string :=
  match name with
  | Some n => if string_eqb n "" then "N/A" else n
  | None => "N/A"
  end.

Definition risk_signals (f : Features) : list string :=
  (if is_workflow_file_change f
   then ["- Critical: Modification to CI/CD workflow file (Supply Chain Risk)"] else [])
  ++ (if force_push_to_main f then ["- High: Force push to main/master branch"] else [])
  ++ (if is_branch_deletion f
      then ["- High: Deletion of a branch (potential sabotage)"] else [])
  ++ (if is_new_account f
      then ["- Medium: Action performed by a new GitHub account"] else [])
  ++ match workflow_failure_streak f with
     | Some n => ["- Low: " +:+ n +:+ " consecutive workflow failures"]
     | None => []
     end.

Definition buildPrompt (rt : Runtime) (job : QueueJob) : list PromptPart :=
  let isSecurity := bool_decide (job_category job = security) in
  let fixed3 := match score job with
                | Some s => toFixed3 rt <$> score_value s
                | None => None
                end in
  [if isSecurity then SecurityAnalystRole else CodeQualityEngineerRole]
  ++ [EventDetails (gh_type (event job)) (or_NA (gh_repo_name (event job)))
        (or_NA (gh_actor_login (event job))) (gh_created_at (event job))]
  ++ (if truthy (gh_payload (event job)) then
        let payloadStr := JSON_stringify_indent2 rt (gh_payload (event job)) in
        [EventPayload (if (2000 <? String.length payloadStr)%nat
                       then String.substring 0 2000 payloadStr +:+ "... (truncated)"
                       else payloadStr)]
      else [])
  ++ match score job with
     | Some s =>
         [BehavioralAnalysis fixed3 (if is_anomalous s then "ANOMALOUS" else "Normal")]
         ++ match features s with
            | Some f =>
                [KeyRiskSignals
                   match risk_signals f with
                   | [] => "- No specific risk patterns identified."
                   | signals => join newline signals
                   end]
            | None => []
            end
     | None => []
     end
  ++ (if truthy (repoContext job) then
        let meta := or_else (prop "metadata" (repoContext job)) (JObj []) in
        let sec := or_else (prop "security" (repoContext job)) (JObj []) in
        [RepositoryContext
           (or_else (prop "stars" meta) (JNum "0"))
           (or_else (prop "age_days" meta) (JNum "0"))
           (if truthy (prop "hasBranchProtection" sec) then "Enabled" else "DISABLED")
           (or_else (prop "uniqueContributors" (prop "activity" (repoContext job))) (JNum "0"))
           (truthy (prop "isArchived" meta))]
      else [])
  ++ [if isSecurity then SecurityResponseFormat fixed3
      else CodeQualityResponseFormat fixed3].


(** ** server.ts: process-wide state and the fan-out notifier *)

Record Budget := mkBudget { budget_security : Z; budget_code_quality : Z }.

(** [API_BUDGET[category]] *)
Definition budget_get (b : Budget) (c : Category) : Z :=
  match c with
  | security => budget_security b
  | code_quality => budget_code_quality b
  end.

(** A summary as the worker hands it to [onSummaryCreated]. *)
Record FullSummary := mkFullSummary {
  fs_id : Z;
  fs_record : Database.SummaryInput;
  fs_created_at : string
}.

(** The object the worker hands to [onError]; its [details], the
    redacted exception, are left out. *)
Record ErrorReport := mkErrorReport {
  er_event_id : string;
  er_error : string;
  er_repo : string;
  er_timestamp : string
}.

Record EventNotice := mkEventNotice {
  en_event_id : string;
  en_event_type : Field;
  en_repo : string;
  en_actor : string;
  en_timestamp : Field;
  en_score : string;
  en_code_quality_score : string;
  en_category : string;
  en_raw_payload : option ReceivedEvent
}.

(** [{ type, ...payload }] as written to a subscriber. *)
Inductive SseMessage :=
| MsgConnected
| MsgEvent (e : EventNotice)
| MsgSummary (s : FullSummary)
| MsgError (e : ErrorReport)
| MsgReset (timestamp : string).

(** The state of the backend process.  [sseClients] lists the
    subscribers in insertion order and [delivered] records every write
    that went through.  The last five fields belong to the worker
    ([slept] records its pauses, in milliseconds). *)
Record State := mkState {
  db : Database.t;
  queue : Queue.t;
  API_BUDGET : Budget;
  pendingEvents : gset string;
  sseClients : list nat;
  delivered : list (nat * SseMessage);
  apiKey : string;
  running : bool;
  onError : bool;
  processingEvents : gset string;
  slept : list Z
}.

Definition set_db (st : State) (d : Database.t) : State :=
  mkState d (queue st) (API_BUDGET st) (pendingEvents st) (sseClients st)
    (delivered st) (apiKey st) (running st) (onError st) (processingEvents st) (slept st).
Definition set_queue (st : State) (q : Queue.t) : State :=
  mkState (db st) q (API_BUDGET st) (pendingEvents st) (sseClients st)
    (delivered st) (apiKey st) (running st) (onError st) (processingEvents st) (slept st).
Definition set_budget (st : State) (b : Budget) : State :=
  mkState (db st) (queue st) b (pendingEvents st) (sseClients st)
    (delivered st) (apiKey st) (running st) (onError st) (processingEvents st) (slept st).
Definition set_pending (st : State) (p : gset string) : State :=
  mkState (db st) (queue st) (API_BUDGET st) p (sseClients st)
    (delivered st) (apiKey st) (running st) (onError st) (processingEvents st) (slept st).
Definition set_clients (st : State) (cs : list nat) (log : list (nat * SseMessage)) : State :=
  mkState (db st) (queue st) (API_BUDGET st) (pendingEvents st) cs
    log (apiKey st) (running st) (onError st) (processingEvents st) (slept st).
Definition set_worker (st : State) (r e : bool) : State :=
  mkState (db st) (queue st) (API_BUDGET st) (pendingEvents st) (sseClients st)
    (delivered st) (apiKey st) r e (processingEvents st) (slept st).
Definition set_processing (st : State) (p : gset string) : State :=
  mkState (db st) (queue st) (API_BUDGET st) (pendingEvents st) (sseClients st)
    (delivered st) (apiKey st) (running st) (onError st) p (slept st).
Definition sleep (st : State) (ms : Z) : State :=
  mkState (db st) (queue st) (API_BUDGET st) (pendingEvents st) (sseClients st)
    (delivered st) (apiKey st) (running st) (onError st) (processingEvents st)
    (slept st ++ [ms]).

(** The module-level objects before [start]: [key] is OPENAI_API_KEY
    (or the empty string) and [server_list] what the Redis server holds. *)
Definition initial (key : string) (server_list : list QueueJob) : State :=
  mkState Database.new (Queue.new server_list) (mkBudget 0 0) ∅ [] [] key
    false false ∅ [].

Section Server.

Context (rt : Runtime).

(** [MAX_SUMMARIES_PER_CATEGORY], read from the environment once. *)
Context (MAX_SUMMARIES_PER_CATEGORY : Z).

Definition canGenerateSummary (st : State) (c : Category) : bool :=
  (budget_get (API_BUDGET st) c <? MAX_SUMMARIES_PER_CATEGORY)%Z.

Definition incrementSummaryCount (st : State) (c : Category) : State :=
  let b := API_BUDGET st in
  set_budget st
    match c with
    | security => mkBudget (budget_security b + 1) (budget_code_quality b)
    | code_quality => mkBudget (budget_security b) (budget_code_quality b + 1)
    end.

(** [broadcast]: the message is written to every subscriber in turn;
    one whose write throws ([fails]) is removed from the set. *)
Definition broadcast (st : State) (msg : SseMessage) (fails : nat -> bool) : State :=
  let live := List.filter (fun c => negb (fails c)) (sseClients st) in
  set_clients st live (delivered st ++ List.map (fun c => (c, msg)) live).

Definition broadcastEvent (st : State) (e : EventNotice) (fails : nat -> bool) : State :=
  broadcast st (MsgEvent e) fails.

Definition broadcastSummary (st : State) (s : FullSummary) (fails : nat -> bool) : State :=
  let st1 :=
    if truthy (JStr (Database.in_event_id (fs_record s)))
    then set_pending st (pendingEvents st ∖ {[Database.in_event_id (fs_record s)]})
    else st in
  broadcast st1 (MsgSummary s) fails.

Definition broadcastError (st : State) (e : ErrorReport) (fails : nat -> bool) : State :=
  broadcast st (MsgError e) fails.

Definition broadcastReset (st : State) (now : string) (fails : nat -> bool) : State :=
  broadcast st (MsgReset now) fails.

(** GET /stream, for a response object [c] that is not yet in the set,
    and the close of its request. *)
Definition stream_open (st : State) (c : nat) : State :=
  if bool_decide (c ∈ sseClients st) then st
  else set_clients st (sseClients st ++ [c]) (delivered st ++ [(c, MsgConnected)]).
Definition stream_close (st : State) (c : nat) : State :=
  set_clients st (List.filter (fun c' => negb (bool_decide (c' = c))) (sseClients st))
    (delivered st).

(** ** summarization-worker.ts *)

(** What [fetch] and the reading of its response give: the call
    rejects (network failure, abort after 30 s), or a response arrives
    with its status line and either a body that is not JSON or the
    value found at [data.choices?.[0]?.message?.content]. *)
Inductive FetchOutcome :=
| FetchRejected (e : JsError)
| FetchResponse (status : Z) (statusText : string) (content : JsVal + JsError).

(** [response.ok] *)
Definition response_ok (status : Z) : bool :=
  (200 <=? status)%Z && (status <=? 299)%Z.

Definition generateSummary (prompt : list PromptPart) (out : FetchOutcome)
  : Res string :=
  match out with
  | FetchRejected e => throw e
  | FetchResponse status statusText content =>
      if negb (response_ok status) then
        throw (Error ("OpenAI API error: " +:+ pretty status +:+ " " +:+ statusText))
      else
        match content with
        | inr e => throw e
        | inl (JStr c) =>
            if string_eqb c "" then throw (Error "Empty response from OpenAI")
            else ret c
        | inl _ => throw (Error "Empty response from OpenAI")
        end
  end.

(** [classificationMap[key]]: the three own properties, then what
    [Object.prototype] answers for the names it defines. *)
Definition classificationMap (key : string) : JsVal :=
  if string_eqb key "CRITICAL_ISSUE" then JStr "ACTIVE_ATTACK"
  else if string_eqb key "POOR_PRACTICE" then JStr "POLICY_VIOLATION"
  else if string_eqb key "MINOR_CONCERN" then JStr "BENIGN_ANOMALY"
  else if string_eqb key "__proto__" then JObj []
  else if bool_decide (key ∈ ["constructor"; "hasOwnProperty"; "isPrototypeOf";
                              "propertyIsEnumerable"; "toLocaleString";
                              "toString"; "valueOf"; "__defineGetter__";
                              "__defineSetter__"; "__lookupGetter__";
                              "__lookupSetter__"])
       then JNative key
  else JUndefined.

Definition validClasses : list string :=
  ["ACTIVE_ATTACK"; "POLICY_VIOLATION"; "BENIGN_ANOMALY"].

(** [validClasses.includes(v)]: strict equality with one of the strings. *)
Definition validClasses_includes (v : JsVal) : bool :=
  match v with
  | JStr s => bool_decide (s ∈ validClasses)
  | _ => false
  end.

Record Parsed := mkParsed {
  classification : JsVal;
  confidence : JsVal;
  one_line_summary : JsVal;
  p_root_cause : list JsVal;
  p_impact : list JsVal;
  p_next_steps : list JsVal
}.

(** [Array.isArray(v) ? v : []] *)
Definition array_or_empty (v : JsVal) : list JsVal :=
  match v with JArr xs => xs | _ => [] end.

Definition parsed_to_js (p : Parsed) : JsVal :=
  JObj [("classification", classification p); ("confidence", confidence p);
        ("one_line_summary", one_line_summary p);
        ("root_cause", JArr (p_root_cause p)); ("impact", JArr (p_impact p));
        ("next_steps", JArr (p_next_steps p))].

(** The text handed to JSON.parse: [jsonMatch[1] || jsonMatch[0]]. *)
Definition extract_json (text : string) : option string :=
  match match_fence rt text with
  | Some (whole, group) => Some (if string_eqb group "" then whole else group)
  | None => match_braces rt text
  end.

(** The body of the inner [try].  An exception is what the catch
    clause receives; its [message] stands for its rendering [String(e)].
    [classificationMap[classification]] converts the classification to
    a property key, which throws for an object that cannot be
    converted. *)
Definition normalize (jsonStr : string) : Res Parsed :=
  parsed <- JSON_parse rt jsonStr;;
  if nullish parsed then
    throw (Error "TypeError: Cannot read properties of null (reading 'classification')")
  else
    let classification := or_else (prop "classification" parsed) (JStr "POLICY_VIOLATION") in
    match toString classification with
    | None => throw (Error ("TypeError: " +:+ message not_primitive))
    | Some key =>
        let mapped := classificationMap key in
        let classification := if truthy mapped then mapped else classification in
        let classification :=
          if validClasses_includes classification then classification
          else JStr "POLICY_VIOLATION" in
        ret (mkParsed classification
               (or_else (prop "confidence" parsed) (JStr "MEDIUM"))
               (or_else (prop "one_line_summary" parsed) (JStr "Analysis not available"))
               (array_or_empty (prop "root_cause" parsed))
               (array_or_empty (prop "impact" parsed))
               (array_or_empty (prop "next_steps" parsed)))
    end.

Definition parseSummaryResponse (text : string) : Res Parsed :=
  match extract_json text with
  | None => throw (Error "Could not find JSON in AI response")
  | Some jsonStr =>
      match normalize jsonStr with
      | inl result => ret result
      | inr e => throw (Error ("Failed to parse AI JSON: " +:+ message e))
      end
  end.

Definition is429 (error : JsError) : bool :=
  includes "429" (message error)
  || includes "Too Many Requests" (message error)
  || bool_decide (status error = Some 429%Z).

(** [name || 'unknown'] *)
Definition or_unknown (name : option string) : string :=
  match name with
  | Some n => if string_eqb n "" then "unknown" else n
  | None => "unknown"
  end.

(** [lines.join('\n')], which throws when an element cannot be
    converted. *)
Definition joined (lines : list JsVal) : Res string :=
  match arrayJoin newline lines with
  | Some text => ret text
  | None => throw not_primitive
  end.

(** The [try] block of [processJob] after the event is marked: it
    either runs to its end or throws before it has changed anything
    else (the store throws before it inserts, and [broadcast] catches
    the failures of its writes). *)
Definition attempt (st : State) (job : QueueJob) (fetch : FetchOutcome)
    (now : string) (fails : nat -> bool) : Res State :=
  let prompt := buildPrompt rt job in
  summary <- generateSummary prompt fetch;;
  parsed <- parseSummaryResponse summary;;
  root_cause <- joined (p_root_cause parsed);;
  impact <- joined (p_impact parsed);;
  next_steps <- joined (p_next_steps parsed);;
  let summaryRecord :=
    Database.mkSummaryInput (eventId job) (gh_type (event job))
      (or_unknown (gh_repo_name (event job)))
      (or_unknown (gh_actor_login (event job)))
      (gh_created_at (event job))
      root_cause impact next_steps
      (JSON_stringify rt (parsed_to_js parsed)) in
  stored <- Database.storeSummary (db st) summaryRecord now;;
  let fullSummary := mkFullSummary (Database.res_id stored.1) summaryRecord now in
  ret (broadcastSummary (set_db st stored.2) fullSummary fails).

(** The first part of [processJob], up to the call of the completion
    API: the job is skipped, or the event is marked as processing. *)
Inductive Entry :=
| Skipped
| Entered (st : State)
| EntryThrew (e : JsError).

Definition processJob_enter (st : State) (job : QueueJob) : Entry :=
  if bool_decide (eventId job ∈ processingEvents st) then Skipped
  else match Database.getSummaryByEventId (db st) (eventId job) with
       | inr e => EntryThrew e
       | inl (Some _) => Skipped
       | inl None => Entered (set_processing st ({[eventId job]} ∪ processingEvents st))
       end.

(** The rest of [processJob], once the completion call has ended:
    the [try] block, the [catch] clause and [finally].  The result
    tells whether an exception leaves [processJob]. *)
Definition processJob_complete (st : State) (job : QueueJob) (fetch : FetchOutcome)
    (now : string) (fails : nat -> bool) (io : Queue.RedisIo)
  : option JsError * State :=
  let finally (r : option JsError * State) :=
    (r.1, set_processing r.2 (processingEvents r.2 ∖ {[eventId job]})) in
  finally
    match attempt st job fetch now fails with
    | inl st' => (None, st')
    | inr error =>
        if is429 error then
          match Queue.push (queue st) job io with
          | inl q => (None, sleep (set_queue st q) 60000)
          | inr e => (Some e, st)
          end
        else if onError st then
          (None, broadcastError st
                   (mkErrorReport (eventId job) (message error)
                      (default "unknown" (gh_repo_name (event job))) now) fails)
        else (None, st)
    end.

Definition processJob (st : State) (job : QueueJob) (fetch : FetchOutcome)
    (now : string) (fails : nat -> bool) (io : Queue.RedisIo)
  : option JsError * State :=
  match processJob_enter st job with
  | Skipped => (None, st)
  | EntryThrew e => (Some e, st)
  | Entered st1 => processJob_complete st1 job fetch now fails io
  end.

(** One turn of the [while] loop of [processLoop]. *)
Definition processLoop_turn (st : State) (popIo : Queue.RedisIo)
    (fetch : FetchOutcome) (now : string) (fails : nat -> bool)
    (pushIo : Queue.RedisIo) : State :=
  if running st then
    match Queue.pop (queue st) popIo with
    | inr _ => sleep st 1000
    | inl (None, q) => set_queue st q
    | inl (Some job, q) =>
        match processJob (set_queue st q) job fetch now fails pushIo with
        | (None, st') => sleep st' 2000
        | (Some _, st') => sleep st' 1000
        end
    end
  else st.

Definition worker_start (st : State) : State :=
  if string_eqb (apiKey st) "" then st else set_worker st true true.

(** ** server.ts: the request handlers *)

(** [start]: the store and the queue are initialised, then the worker. *)
Definition start (st : State) (redisUrl : option string)
    (outcome : Queue.ConnectOutcome) : State :=
  worker_start
    (set_queue (set_db st (Database.init (db st)))
       (Queue.init (queue st) redisUrl outcome)).

(** Answers of GET /event/:eventId/summary. *)
Inductive SummaryResponse :=
| StoredSummary (s : Database.Summary)
| Generating (eventId : string)
| EventNotFound
| BudgetExhausted (category : Category) (used max : Z)
| SummaryFailed.

(** [event.category === 'code_quality' ? 'code_quality' : 'security'] *)
Definition request_category (stored : option string) : Category :=
  match stored with
  | Some c => if string_eqb c "code_quality" then code_quality else security
  | None => security
  end.

(** [event.score ? { score: event.score } : null] *)
Definition job_score (stored : option string) : option Score :=
  match stored with
  | Some d => if truthy (JNum d) then Some (mkScore (Some d) false None) else None
  | None => None
  end.

(** GET /event/:eventId/summary.  An exception anywhere in the handler
    gives the 500 answer and keeps what was written before it. *)
Definition get_event_summary (st : State) (eventId : string) (io : Queue.RedisIo)
  : SummaryResponse * State :=
  match Database.getSummaryByEventId (db st) eventId with
  | inr _ => (SummaryFailed, st)
  | inl (Some existingSummary) =>
      (StoredSummary existingSummary, set_pending st (pendingEvents st ∖ {[eventId]}))
  | inl None =>
      if bool_decide (eventId ∈ pendingEvents st) then (Generating eventId, st)
      else
        match Database.getEvent (db st) eventId with
        | inr _ => (SummaryFailed, st)
        | inl None => (EventNotFound, st)
        | inl (Some event) =>
            let category := request_category (Database.category event) in
            if negb (canGenerateSummary st category) then
              (BudgetExhausted category (budget_get (API_BUDGET st) category)
                 MAX_SUMMARIES_PER_CATEGORY, st)
            else
              match parse_event rt (Database.payload event) with
              | inr _ => (SummaryFailed, st)
              | inl eventData =>
                  match match Database.repo_context event with
                        | Some text =>
                            if string_eqb text "" then inl JNull else JSON_parse rt text
                        | None => inl JNull
                        end with
                  | inr _ => (SummaryFailed, st)
                  | inl repoContext =>
                      let score := job_score (Database.score event) in
                      let st1 := set_pending st ({[eventId]} ∪ pendingEvents st) in
                      let st2 := incrementSummaryCount st1 category in
                      match Queue.push (queue st2)
                              (mkQueueJob eventId eventData score repoContext
                                 (Database.created_at event) category) io with
                      | inr _ => (SummaryFailed, st2)
                      | inl q => (Generating eventId, set_queue st2 q)
                      end
                  end
              end
        end
  end.

Inductive ResetResponse :=
| ResetDone (events summaries queueJobs : nat)
| ResetFailed.

(** POST /reset *)
Definition reset (st : State) (io : Queue.RedisIo) (now : string)
    (fails : nat -> bool) : ResetResponse * State :=
  match Database.clearAll (db st) with
  | inr _ => (ResetFailed, st)
  | inl (dbResult, d) =>
      let st1 := set_db st d in
      match Queue.clear (queue st1) io with
      | inr _ => (ResetFailed, st1)
      | inl (queueCleared, q) =>
          let st2 := set_queue st1 q in
          let st3 := set_budget st2 (mkBudget 0 0) in
          let st4 := set_pending st3 ∅ in
          let st5 := broadcastReset st4 now fails in
          (ResetDone (Database.eventsCleared dbResult)
             (Database.summariesCleared dbResult) queueCleared, st5)
      end
  end.

(** The body of POST /internal/event. *)
Record EventBody := mkEventBody {
  body_event : option ReceivedEvent;
  body_score : option Score;
  body_codeQualityScore : option Score;
  body_category : option string;
  body_repoContext : JsVal
}.

Inductive EventResponse :=
| InvalidEvent
| Counted (eventId : string)
| Stored (eventId : string)
| EventFailed.

(** [x || 0] on an optional number. *)
Definition or_zero (x : option string) : string := default "0" x.

(** POST /internal/event.  The counter of a 'normal' event is
    incremented before the event is stored: when the store refuses the
    event the increment stays. *)
Definition internal_event (st : State) (body : EventBody) (now : string)
    (fails : nat -> bool) : EventResponse * State :=
  match body_event body with
  | None => (InvalidEvent, st)
  | Some event =>
      if string_eqb (rc_id event) "" then (InvalidEvent, st)
      else if bool_decide (body_category body = Some "normal") then
        match Database.incrementNormalCounter (db st) with
        | inr _ => (EventFailed, st)
        | inl d1 =>
            match Database.storeEvent rt d1 event (body_score body)
                    (body_codeQualityScore body) (body_category body) JNull now with
            | inr _ => (EventFailed, set_db st d1)
            | inl d2 =>
                (Counted (rc_id event),
                 broadcastEvent (set_db st d2)
                   (mkEventNotice (rc_id event) (rc_type event)
                      (or_unknown (rc_repo_name event))
                      (or_unknown (rc_actor_login event))
                      (rc_created_at event) "0" "0" "normal" None) fails)
            end
        end
      else
        let category := match body_category body with
                        | Some c => if string_eqb c "" then "normal" else c
                        | None => "normal"
                        end in
        match Database.storeEvent rt (db st) event (body_score body)
                (body_codeQualityScore body) (Some category)
                (body_repoContext body) now with
        | inr _ => (EventFailed, st)
        | inl d =>
            (Stored (rc_id event),
             broadcastEvent (set_db st d)
               (mkEventNotice (rc_id event) (rc_type event)
                  (or_unknown (rc_repo_name event))
                  (or_unknown (rc_actor_login event))
                  (rc_created_at event)
                  (or_zero (score_or_null (body_score body)))
                  (or_zero (score_or_null (body_codeQualityScore body)))
                  (default "normal" (body_category body)) (Some event)) fails)
        end
  end.

End Server.

(** ** The backend as a transition system

    A handler runs without interruption up to its first network call,
    and so does the worker between two of them.  The worker gives way
    while it waits for the completion API, so its turn is split there;
    [inflight] is the job whose answer it is waiting for.  The handlers
    change nothing after a Redis command except POST /reset, which is
    taken here as one step. *)

Section System.

Context (rt : Runtime) (MAX_SUMMARIES_PER_CATEGORY : Z).

Inductive Step :=
| SummaryRequest (eventId : string) (io : Queue.RedisIo)
| InternalEvent (body : EventBody) (now : string) (fails : nat -> bool)
| ResetRequest (io : Queue.RedisIo) (now : string) (fails : nat -> bool)
| StreamOpen (c : nat)
| StreamClose (c : nat)
| RedisConnect
| RedisRetry (times : Z)
| WorkerPop (io : Queue.RedisIo)
| WorkerAnswer (fetch : FetchOutcome) (now : string) (fails : nat -> bool)
    (io : Queue.RedisIo).

Record Sys := mkSys { state : State; inflight : option QueueJob }.

(** A route parameter is never empty, so [SummaryRequest ""] reaches no
    handler.  The worker steps follow [processLoop]. *)
Definition step (s : Sys) (l : Step) : Sys :=
  let st := state s in
  match l with
  | SummaryRequest eventId io =>
      if string_eqb eventId "" then s
      else mkSys (get_event_summary rt MAX_SUMMARIES_PER_CATEGORY st eventId io).2
             (inflight s)
  | InternalEvent body now fails =>
      mkSys (internal_event rt st body now fails).2 (inflight s)
  | ResetRequest io now fails => mkSys (reset st io now fails).2 (inflight s)
  | StreamOpen c => mkSys (stream_open st c) (inflight s)
  | StreamClose c => mkSys (stream_close st c) (inflight s)
  | RedisConnect => mkSys (set_queue st (Queue.on_connect (queue st))) (inflight s)
  | RedisRetry times =>
      mkSys (set_queue st (Queue.retryStrategy (queue st) times).2) (inflight s)
  | WorkerPop io =>
      match inflight s with
      | Some _ => s
      | None =>
          if running st then
            match Queue.pop (queue st) io with
            | inr _ => mkSys (sleep st 1000) None
            | inl (None, q) => mkSys (set_queue st q) None
            | inl (Some job, q) =>
                match processJob_enter (set_queue st q) job with
                | Skipped => mkSys (sleep (set_queue st q) 2000) None
                | EntryThrew _ => mkSys (sleep (set_queue st q) 1000) None
                | Entered st1 => mkSys st1 (Some job)
                end
            end
          else s
      end
  | WorkerAnswer fetch now fails io =>
      match inflight s with
      | None => s
      | Some job =>
          match processJob_complete rt st job fetch now fails io with
          | (None, st') => mkSys (sleep st' 2000) None
          | (Some _, st') => mkSys (sleep st' 1000) None
          end
      end
  end.

Definition run (s : Sys) (steps : list Step) : Sys := foldl step s steps.

(** The process after [start]. *)
Definition booted (key : string) (server_list : list QueueJob)
    (redisUrl : option string) (outcome : Queue.ConnectOutcome) : Sys :=
  mkSys (start (initial key server_list) redisUrl outcome) None.

End System.

(** ** The events poller: backoff *)

Module Poller.

Open Scope Q_scope.

(** Durations are in milliseconds; JavaScript numbers are read as
    exact rationals. *)
Record PollerConfig := mkConfig {
  pollInterval : Q;
  initialBackoff : Q;
  maxBackoff : Q;
  backoffMultiplier : Q
}.

(** The defaults of the constructor, overridden by its argument. *)
Definition default_config : PollerConfig := mkConfig 60000 5000 300000 2.

(** [new GitHubEventsPoller({ pollInterval: 10000 })] *)
Definition poller_config : PollerConfig :=
  mkConfig 10000 (initialBackoff default_config) (maxBackoff default_config)
    (backoffMultiplier default_config).

Record t := mk { config : PollerConfig; currentBackoff : Q; pollCount : nat }.

Definition new (c : PollerConfig) : t := mk c (initialBackoff c) 0.

(** [random] is the value of [Math.random()]. *)
Definition increaseBackoff (p : t) (random : Q) : t :=
  let nextBackoff := currentBackoff p * backoffMultiplier (config p) in
  let jitter := (8 # 10) + random * (4 # 10) in
  mk (config p) (Qmin (nextBackoff * jitter) (maxBackoff (config p))) (pollCount p).

Definition resetBackoff (p : t) : t :=
  mk (config p) (initialBackoff (config p)) (pollCount p).

(** How a cycle of [poll] ends: with a response (its status code and
    its [retry-after] header) whose handling runs to its end, or with
    an exception caught by the loop. *)
Inductive Cycle :=
| Responded (statusCode : Z) (retryAfter : option string)
| Threw.

Definition success (c : Cycle) : bool :=
  match c with
  | Responded code _ => bool_decide (code = 304%Z) || bool_decide (code = 200%Z)
  | Threw => false
  end.

(** The effect of one cycle on the poller; [random] is drawn when the
    cycle needs it. *)
Definition cycle (p : t) (c : Cycle) (random : Q) : t :=
  let p := mk (config p) (currentBackoff p) (S (pollCount p)) in
  match c with
  | Responded code retryAfter =>
      if bool_decide (code = 304%Z) then resetBackoff p
      else if bool_decide (code = 200%Z) then resetBackoff p
      else if bool_decide (code = 403%Z) || bool_decide (code = 429%Z) then
        match retryAfter with
        | Some text => if string_eqb text "" then increaseBackoff p random else p
        | None => increaseBackoff p random
        end
      else increaseBackoff p random
  | Threw => increaseBackoff p random
  end.

Definition poll (p : t) (cycles : list (Cycle * Q)) : t :=
  foldl (fun p c => cycle p c.1 c.2) p cycles.

(** [Math.random()] lies in [0, 1). *)
Definition is_random (r : Q) : Prop := 0 <= r /\ r < 1.

End Poller.

(** ** A runtime for the examples

    It answers as Node 20 does on the texts of the examples.  None of
    them holds a fenced block.  [braces] is the second regular
    expression of [parseSummaryResponse].  JSON.parse is given on the
    documents of the examples: the empty object, the two answers that
    parse, and the answer that is cut short, for which JSON.parse
    reports the end of its input (no other text is parsed in the
    examples).  What is stored as the payload of an event is the
    identifier of the event. *)

(** The longest prefix that ends with a closing brace. *)
Fixpoint upto_last_brace (text : string) : option string :=
  match text with
  | EmptyString => None
  | String c rest =>
      match upto_last_brace rest with
      | Some prefix => Some (String c prefix)
      | None => if Ascii.eqb c (Ascii.ascii_of_nat 125) then Some (String c EmptyString)
                else None
      end
  end.

(** [text.match(/\{[\s\S]*\}/)]: from the first opening brace to the
    last closing brace after it. *)
Fixpoint braces (text : string) : option string :=
  match text with
  | EmptyString => None
  | String c rest =>
      if Ascii.eqb c (Ascii.ascii_of_nat 123)
      then option_map (String c) (upto_last_brace rest)
      else braces rest
  end.

(** A property with a text for its value. *)
Definition member (key value : string) : string :=
  quote +:+ key +:+ quote +:+ ":" +:+ value.

(** An answer with a code-quality classification, one whose
    classification is an object with a [toString] of its own, and one
    that breaks off after an inner object. *)
Definition critical_answer : string :=
  "{" +:+ member "classification" (quote +:+ "CRITICAL_ISSUE" +:+ quote) +:+ "}".
Definition unconvertible_answer : string :=
  "{" +:+ member "classification" ("{" +:+ member "toString" "1" +:+ "}") +:+ "}".
Definition cut_answer : string :=
  "{" +:+ member "details" "{}".

Definition example_runtime : Runtime :=
  mkRuntime
    (fun _ => None)
    braces
    (fun text =>
       if string_eqb text "{}" then inl (JObj [])
       else if string_eqb text critical_answer
            then inl (JObj [("classification", JStr "CRITICAL_ISSUE")])
       else if string_eqb text unconvertible_answer
            then inl (JObj [("classification", JObj [("toString", JNum "1")])])
       else inr (Error "SyntaxError: Unexpected end of JSON input"))
    (fun _ => "{}")
    (fun _ => "{}")
    (fun text => inl (mkGithubEvent text "PushEvent" (Some "octo/repo") (Some "octocat")
                        "2024-01-01T00:00:00Z" JNull))
    rc_id
    (fun d => d).

Definition example_event (id : string) : GithubEvent :=
  mkGithubEvent id "PushEvent" (Some "octo/repo") (Some "octocat")
    "2024-01-01T00:00:00Z" JNull.

Definition example_job (id : string) : QueueJob :=
  mkQueueJob id (example_event id) None JNull "2024-01-01T00:00:00Z" security.

Definition example_summary (id cause : string) : Database.SummaryInput :=
  Database.mkSummaryInput id "PushEvent" "octo/repo" "octocat"
    "2024-01-01T00:00:00Z" cause "impact" "next steps" "{}".

Definition no_failure (_ : nat) : bool := false.

Definition example_body (id category : string) : EventBody :=
  mkEventBody (Some (received (example_event id))) None None (Some category) JNull.

(** An answer of the completion API that parses. *)
Definition example_answer : FetchOutcome :=
  FetchResponse 200 "OK" (inl (JStr critical_answer)).

(** A deployment with a ceiling of one summary per category, after one
    event of each category has been stored, requested and summarised. *)
Definition example_exhausted : State :=
  state
    (run example_runtime 1 (booted "key" [] None Queue.Connected)
       [InternalEvent (example_body "E1" "security") "t0" no_failure;
        InternalEvent (example_body "E2" "code_quality") "t0" no_failure;
        SummaryRequest "E1" Queue.Replied;
        SummaryRequest "E2" Queue.Replied;
        WorkerPop Queue.Replied;
        WorkerAnswer example_answer "t1" no_failure Queue.Replied;
        WorkerPop Queue.Replied;
        WorkerAnswer example_answer "t2" no_failure Queue.Replied]).

(** A subscriber listens, an event is stored and its summary requested,
    and the completion API answers with the given text. *)
Definition example_answered (content : string) : Sys :=
  run example_runtime 10 (booted "key" [] None Queue.Connected)
    [StreamOpen 7;
     InternalEvent (example_body "E1" "security") "t0" no_failure;
     SummaryRequest "E1" Queue.Replied;
     WorkerPop Queue.Replied;
     WorkerAnswer (FetchResponse 200 "OK" (inl (JStr content))) "t1" no_failure
       Queue.Replied].

(** The answer is JSON that breaks off. *)
Definition example_failed : Sys := example_answered cut_answer.

(** The queue of a deployment whose Redis server was not yet up when
    [init] ran. *)
Definition example_fallen_back : Queue.t :=
  Queue.init (Queue.new []) (Some "redis://cache:6379")
    (Queue.ConnectFailed (Error "Connection is closed.")).

(** ** Notions used in the statements *)

(** The fixed table of the specification: a code-quality value and the
    security value it stands for. *)
Definition classification_table (value : string) : option string :=
  if string_eqb value "CRITICAL_ISSUE" then Some "ACTIVE_ATTACK"
  else if string_eqb value "POOR_PRACTICE" then Some "POLICY_VIOLATION"
  else if string_eqb value "MINOR_CONCERN" then Some "BENIGN_ANOMALY"
  else None.



(** Later attempts to store summaries, one after the other. *)
Definition store_all (rt : Runtime) (d : Database.t)
    (later : list (Database.SummaryInput * string)) : Database.t :=
  foldl (fun d sn => Database.apply rt d (Database.OpStoreSummary sn.1 sn.2)) d later.

Definition initialized (d : Database.t) : Prop := Database.db d <> None.

(** A received event that has its type and its creation time. *)
Definition storable (event : ReceivedEvent) (type created_at : string) : Prop :=
  rc_type event = Text type /\ rc_created_at event = Text created_at.

Definition unique_event_ids (d : Database.t) : Prop :=
  NoDup (Database.event_id <$> Database.summary_rows d).

(** Every job names an event. *)
Definition named (jobs : list QueueJob) : Prop :=
  Forall (fun j => eventId j <> "") jobs.

(** What holds of every reachable state: the store is open, an event
    that is pending has no summary, and every job names an event. *)
Record Inv (s : Sys) : Prop := mkInv {
  inv_db : initialized (db (state s));
  inv_pending : forall e, e ∈ pendingEvents (state s) ->
    Database.find_summary e (Database.summary_rows (db (state s))) = None;
  inv_memory : named (Queue.inMemoryQueue (queue (state s)));
  inv_redis : named (Queue.redis_list (queue (state s)));
  inv_inflight : forall j, inflight s = Some j -> eventId j <> ""
}.

(** The backoff of a poller lies between the bounds of [cfg]. *)
Definition in_bounds (cfg : Poller.PollerConfig) (p : Poller.t) : Prop :=
  Poller.config p = cfg
  /\ (Poller.initialBackoff cfg <= Poller.currentBackoff p)%Q
  /\ (Poller.currentBackoff p <= Poller.maxBackoff cfg)%Q.

(** * Further parts of the program

    The read queries of database.ts, the poller's set of seen events,
    the cache and the risk of repo-context.ts, and the client of the
    summary endpoint (services/backendStream.ts). *)

From stdpp Require Import sorting.
From Equations Require Equations.

Open Scope Z_scope.
Open Scope string_scope.

(** ** database.ts: the read queries *)

Module DatabaseQueries.

Import Database.






Record TotalCounts := mkTotalCounts {
  totalSecurity : Z;
  totalCodeQuality : Z;
  totalNormal : Z;
  total : Z
}.

(** [SUM(CASE WHEN category = ... THEN 1 ELSE 0 END)], with [?? 0] for
    the NULL of an empty table. *)
Definition count_category (cat : string) (rows : list Event) : Z :=
  Z.of_nat (List.length (filter (fun e => Database.category e = Some cat) rows)).

Definition getTotalCounts (d : t) : Res TotalCounts :=
  match db d with
  | None => throw not_initialized
  | Some c =>
      let totalSecurity := count_category "security" (events c) in
      let totalCodeQuality := count_category "code_quality" (events c) in
      let totalNormal := normal_count c in
      ret (mkTotalCounts totalSecurity totalCodeQuality totalNormal
             (totalSecurity + totalCodeQuality + totalNormal))
  end.

End DatabaseQueries.

(** The identifiers of the stored events are pairwise distinct. *)
Definition unique_events (d : Database.t) : Prop :=
  NoDup (Database.id <$> match Database.db d with
                          | Some c => Database.events c
                          | None => []
                          end).

(** The number of calls of [incrementNormalCounter] since the last
    [clearAll]. *)
Definition increments_since_clear (ops : list Database.Op) : Z :=
  foldl (fun n op =>
           match op with
           | Database.OpIncrementNormalCounter => n + 1
           | Database.OpClearAll => 0
           | _ => n
           end) 0 ops.


(** ** Draining the queue *)

(** The jobs that [n] successive calls of [pop] return, up to the first
    call that returns none or throws. *)
Fixpoint drain (n : nat) (q : Queue.t) (io : Queue.RedisIo) : list QueueJob * Queue.t :=
  match n with
  | O => ([], q)
  | S n' =>
      match Queue.pop q io with
      | inl (Some job, q') => let r := drain n' q' io in (job :: r.1, r.2)
      | _ => ([], q)
      end
  end.

(** Pushing jobs one after the other. *)
Definition push_all (q : Queue.t) (jobs : list QueueJob) (io : Queue.RedisIo) : Queue.t :=
  queue_events q ((fun job => QPush job io) <$> jobs).

(** Both counters lie between zero and the ceiling (or are zero when
    the ceiling is not positive). *)
Definition within_budget (MAX : Z) (b : Budget) : Prop :=
  forall c, (0 <= budget_get b c)%Z /\ (budget_get b c <= Z.max 0 MAX)%Z.

(** [category || 'normal'], as bound by POST /internal/event. *)
Definition category_or_normal (category : option string) : string :=
  match category with
  | Some c => if string_eqb c "" then "normal" else c
  | None => "normal"
  end.

(** The count of the 'normal' counter. *)
Definition normal_total (d : Database.t) : Z :=
  match Database.db d with
  | Some c => Database.normal_count c
  | None => 0
  end.

(** ** The events poller: which events of a page are new *)

Module PollerEvents.

(** [seenEventIds] is a Set of identifiers; it is kept here in insertion
    order, which is the order [Array.from] lists it in. *)
Definition has (seenEventIds : list string) (id : string) : bool :=
  bool_decide (id ∈ seenEventIds).

Definition add (seenEventIds : list string) (id : string) : list string :=
  if has seenEventIds id then seenEventIds else (seenEventIds ++ [id])%list.

(** [events.filter((event) => !this.seenEventIds.has(event.id))] *)
Definition newEvents (seenEventIds : list string) (events : list GithubEvent)
  : list GithubEvent :=
  List.filter (fun event => negb (has seenEventIds (gh_id event))) events.

(** [idsArray.slice(-n)] *)
Definition slice_last {A} (n : nat) (xs : list A) : list A :=
  drop (length xs - n) xs.

(** How the handling of a page with new events ends: it runs to its
    end, or one of the scoring promises rejects, or the logging of the
    anomalies that follows the sending throws (a score without its
    [score] or [features], as in [securityScore?.score.toFixed(3)]). *)
Inductive Outcome := Handled | ScoringRejected | LoggingThrew.

(** The 200 branch of [poll], as far as the events go: the events sent
    to the backend and the set of seen identifiers afterwards.  Every
    new identifier is added before the first scoring request is awaited;
    the events are sent once all of them are scored, so when a scoring
    promise rejects the loop's handler takes over before anything is
    sent and before the set is trimmed; when the logging throws, the
    events are sent already and the set is not trimmed. *)
Definition handle_events (seenEventIds : list string) (events : list GithubEvent)
    (outcome : Outcome) : list GithubEvent * list string :=
  let new := newEvents seenEventIds events in
  if bool_decide (0 < length new)%nat then
    let seen := foldl add seenEventIds (gh_id <$> new) in
    match outcome with
    | ScoringRejected => ([], seen)
    | LoggingThrew => (new, seen)
    | Handled => (new, if bool_decide (1000 < length seen)%nat
                       then slice_last 1000 seen else seen)
    end
  else ([], seenEventIds).

End PollerEvents.

(** ** services/backendStream.ts: the client of the summary endpoint *)

Module BackendStream.

Import Equations.Prop.Equations.

(** What one [fetch] of /event/:eventId/summary gives: the call rejects
    (network failure, abort after 30 s), or a response arrives with its
    status line and what [response.json()] gives. *)
Inductive Reply :=
| Rejected (e : JsError)
| Response (status : Z) (statusText : string) (body : Res JsVal).

(** [data.status === 'generating'] *)
Definition is_generating (data : JsVal) : Res bool :=
  if nullish data
  then throw (Error "Cannot read properties of null (reading 'status')")
  else ret match prop "status" data with
           | JStr s => string_eqb s "generating"
           | _ => false
           end.

(** [new Error(errorData.message ?? `Failed to get summary: ${response.status}`)] *)
Definition poll_failure (status : Z) (body : Res JsVal) : JsError :=
  let errorData := match body with inl data => data | inr _ => JObj [] end in
  if nullish errorData
  then Error "Cannot read properties of null (reading 'message')"
  else
    let message := prop "message" errorData in
    if nullish message then Error ("Failed to get summary: " +:+ pretty status)
    else match toString message with
         | Some text => Error text
         | None => not_primitive
         end.

(** [replies n] is the outcome of the request number [n] of the page;
    [sent] counts the requests made so far and is returned with the
    result. *)
Equations pollForSummary (replies : nat -> Reply) (sent : nat) (attempts : nat)
  : Res JsVal * nat by wf (31 - attempts)%nat lt :=
pollForSummary replies sent attempts with decide (30 < attempts)%nat := {
  | left _ => (throw (Error "Summary generation timed out"), sent)
  | right _ =>
      match replies sent with
      | Rejected e => (throw e, S sent)
      | Response status statusText body =>
          if negb (response_ok status) then (throw (poll_failure status body), S sent)
          else
            match body with
            | inr e => (throw e, S sent)
            | inl data =>
                match is_generating data with
                | inr e => (throw e, S sent)
                | inl true => pollForSummary replies (S sent) (S attempts)
                | inl false => (ret data, S sent)
                end
            end
      end }.
Next Obligation. lia. Qed.

Definition getEventSummary (replies : nat -> Reply) : Res JsVal * nat :=
  match replies 0%nat with
  | Rejected e => (throw e, 1%nat)
  | Response status statusText body =>
      if negb (response_ok status)
      then (throw (Error ("Failed to get summary: " +:+ statusText)), 1%nat)
      else
        match body with
        | inr e => (throw e, 1%nat)
        | inl data =>
            match is_generating data with
            | inr e => (throw e, 1%nat)
            | inl true => pollForSummary replies 1 0
            | inl false => (ret data, 1%nat)
            end
        end
  end.

(** A reply that sends the client polling again. *)
Definition generating (r : Reply) : bool :=
  match r with
  | Response status _ (inl data) =>
      response_ok status &&
      match is_generating data with inl true => true | _ => false end
  | _ => false
  end.

End BackendStream.

(** ** repo-context.ts: the cache of repository contexts and the risk
    the poller derives from a context *)

Module RepoContextFetcher.

(** A context, as far as [calculateContextualRisk] reads it;
    [failureRate] is that of [checks], when the context has them.  The
    numbers of a context are those GitHub answered: integers, and a
    ratio for the failure rate. *)
Record RepoContext := mkRepoContext {
  repo : string;
  age_days : Z;
  stars : Z;
  isArchived : bool;
  hasIssuesEnabled : bool;
  hasBranchProtection : bool;
  uniqueContributors : Z;
  recentCommitCount : Z;
  failureRate : option Q
}.

(** [lastGraphQLRateLimit], as far as it is read: what [parseInt] made
    of the two headers, [None] for NaN. *)
Record RateLimit := mkRateLimit {
  rl_remaining : option Z;
  rl_reset : option Z
}.

(** An entry of the cache is a context with the time it was stored at,
    in milliseconds. *)
Record t := mk {
  cache : gmap string (RepoContext * Z);
  lastGraphQLRateLimit : option RateLimit
}.

Definition new : t := mk ∅ None.

Definition CACHE_TTL : Z := 300000.

(** [now] is [Date.now()]. *)
Definition hasGraphQLCapacity (f : t) (minPoints : Z) (now : Z) : bool :=
  match lastGraphQLRateLimit f with
  | None => true
  | Some rl =>
      let now := now `div` 1000 in
      if match rl_reset rl with Some r => bool_decide (r <= now) | None => false end
      then true
      else match rl_remaining rl with
           | Some r => bool_decide (minPoints <= r)
           | None => false
           end
  end.

(** [s.split('/')] *)
Fixpoint split_slash (s : string) : list string :=
  match s with
  | EmptyString => [""]
  | String c rest =>
      let parts := split_slash rest in
      if Ascii.eqb c (Ascii.ascii_of_nat 47) then "" :: parts
      else match parts with
           | p :: ps => String c p :: ps
           | [] => [String c ""]
           end
  end.

(** [const [owner, name] = repoFullName.split('/')], both truthy. *)
Definition owner_and_name (repoFullName : string) : bool :=
  match split_slash repoFullName with
  | owner :: name :: _ => negb (string_eqb owner "") && negb (string_eqb name "")
  | _ => false
  end.

(** The entry that [fetchRepoContext] answers from, when there is one
    young enough. *)
Definition cached (f : t) (repoFullName : string) (now : Z) : option RepoContext :=
  match cache f !! repoFullName with
  | Some (data, timestamp) =>
      if bool_decide (now - timestamp < CACHE_TTL) then Some data else None
  | None => None
  end.

(** What the requests of [fetchRepoContext] come to: no context (the
    GraphQL request fails, reports errors or knows no such repository,
    or building the context throws), or a context and the time it is
    stored at.  [rateLimit] is what the response headers said, if the
    response carried them. *)
Inductive Requested :=
| NoContext (rateLimit : option RateLimit)
| Context (rateLimit : option RateLimit) (context : RepoContext) (timestamp : Z).

Definition noted (f : t) (rateLimit : option RateLimit) : option RateLimit :=
  match rateLimit with
  | Some rl => Some rl
  | None => lastGraphQLRateLimit f
  end.

(** [now] and [now'] are the two readings of the clock, for the cache
    and for the rate limit. *)
Definition fetchRepoContext (f : t) (repoFullName : string) (now now' : Z)
    (out : Requested) : option RepoContext * t :=
  match cached f repoFullName now with
  | Some data => (Some data, f)
  | None =>
      if negb (hasGraphQLCapacity f 50 now') then (None, f)
      else if negb (owner_and_name repoFullName) then (None, f)
      else
        match out with
        | NoContext rateLimit => (None, mk (cache f) (noted f rateLimit))
        | Context rateLimit context timestamp =>
            (Some context,
             mk (<[repoFullName := (context, timestamp)]> (cache f)) (noted f rateLimit))
        end
  end.

Definition calculateContextualRisk (context : RepoContext) (eventType : string) : Q :=
  let risk := 0%Q in
  let risk := if bool_decide (age_days context < 30) then (risk + (3 # 10))%Q else risk in
  let risk := if bool_decide (stars context < 10) then (risk + (2 # 10))%Q else risk in
  let risk := if isArchived context then (risk + (5 # 10))%Q else risk in
  let risk := if negb (hasIssuesEnabled context) && string_eqb eventType "IssuesEvent"
              then (risk + (3 # 10))%Q else risk in
  let risk := if negb (hasBranchProtection context) then (risk + (2 # 10))%Q else risk in
  let risk := match failureRate context with
              | Some rate => if Qlt_le_dec (5 # 10) rate then (risk + (3 # 10))%Q else risk
              | None => risk
              end in
  let risk := if bool_decide (uniqueContributors context < 3) &&
                 bool_decide (10 < recentCommitCount context)
              then (risk + (2 # 10))%Q else risk in
  Qmin risk 1.

Definition clearOldCache (f : t) (now : Z) : t :=
  mk (filter (fun entry => ¬ (now - entry.2.2 > CACHE_TTL)) (cache f))
     (lastGraphQLRateLimit f).

End RepoContextFetcher.


(** * Properties *)

(** ** The record store *)

Section DatabaseFacts.

Import Database.

Context (rt : Runtime).

(** What [storeEvent] has done when it returns. *)
Lemma storeEvent_inv d e sc cq cat ctx now d' :
  storeEvent rt d e sc cq cat ctx now = inl d' ->
  exists c type created_at,
    db d = Some c /\ rc_type e = Text type /\ rc_created_at e = Text created_at
    /\ d' = mk (Some (mkConn
                (filter (fun r => id r ≠ rc_id e) (events c)
                 ++ [mkEvent (rc_id e) type (default "unknown" (rc_repo_name e))
                       (default "unknown" (rc_actor_login e)) created_at
                       (stringify_event rt e) (score_or_null sc) (score_or_null cq) cat
                       (if truthy ctx then Some (JSON_stringify rt ctx) else None)
                       now (max_rowid (events c) + 1)])
                (summaries c) (summaries_seq c) (normal_count c)
                (max_rowid (events c) + 1))).
Proof.
  unfold storeEvent. destruct (db d) as [c|]; [|done].
  destruct (rc_type e) as [type| |], (rc_created_at e) as [created_at| |]; try done.
  intros [= <-]. by exists c, type, created_at.
Qed.

(** A refused event leaves the store as it was. *)
Lemma apply_storeEvent d e sc cq cat ctx now :
  apply rt d (OpStoreEvent e sc cq cat ctx now) = d
  \/ exists d', storeEvent rt d e sc cq cat ctx now = inl d'
               /\ apply rt d (OpStoreEvent e sc cq cat ctx now) = d'.
Proof. simpl. destruct (storeEvent _ _ _ _ _ _ _ _) as [d'|]; eauto. Qed.

Lemma apply_initialized d op : initialized d -> initialized (apply rt d op).
Proof.
  unfold initialized. destruct d as [[c|]]; [intros _|done].
  destruct op as [e sc cq cat ctx now|s now| |]; try done.
  - destruct (apply_storeEvent (mk (Some c)) e sc cq cat ctx now)
      as [->|(d' & (? & ? & ? & _ & _ & _ & ->)%storeEvent_inv & ->)]; done.
  - simpl. unfold storeSummary; simpl.
    destruct (find_summary (in_event_id s) (summaries c)); done.
Qed.

Lemma run_from_initialized d ops :
  initialized d -> initialized (foldl (apply rt) d ops).
Proof.
  revert d. induction ops as [|op ops IH]; intros d Hd; simpl; [done|].
  apply IH, apply_initialized, Hd.
Qed.

Lemma run_initialized ops : initialized (Database.run rt ops).
Proof. apply run_from_initialized. done. Qed.

Lemma find_summary_None eid rows :
  find_summary eid rows = None <-> eid ∉ event_id <$> rows.
Proof.
  unfold find_summary, string_eqb.
  induction rows as [|r rows IH]; simpl.
  - split; [intros _; apply not_elem_of_nil | done].
  - rewrite not_elem_of_cons. case_bool_decide; split; try done.
    + intros [? _]. done.
    + intros H'. split; [congruence | by apply IH].
    + intros [_ H']. by apply IH.
Qed.

Lemma find_summary_Some eid rows r :
  find_summary eid rows = Some r -> r ∈ rows /\ event_id r = eid.
Proof.
  unfold find_summary. intros H. apply find_some in H as [Hin Heq].
  split; [by apply list_elem_of_In|].
  unfold string_eqb in Heq. by case_bool_decide.
Qed.

Lemma find_summary_app_l eid rows more r :
  find_summary eid rows = Some r -> find_summary eid (rows ++ more) = Some r.
Proof.
  unfold find_summary. induction rows as [|x rows IH]; simpl; [done|].
  destruct (string_eqb (event_id x) eid); [done | apply IH].
Qed.

Lemma apply_unique d op : unique_event_ids d -> unique_event_ids (apply rt d op).
Proof.
  unfold unique_event_ids, summary_rows.
  destruct d as [[c|]]; [|by destruct op].
  destruct op as [e sc cq cat ctx now|s now| |]; try done.
  - destruct (apply_storeEvent (mk (Some c)) e sc cq cat ctx now)
      as [->|(d' & (? & ? & ? & Hc & _ & _ & ->)%storeEvent_inv & ->)]; [done|].
    by simplify_eq/=.
  - simpl. unfold storeSummary; simpl.
    destruct (find_summary (in_event_id s) (summaries c)) eqn:Hf; simpl; [done|].
    intros Hn. rewrite fmap_app. apply NoDup_app. split; [done|]. split.
    + intros x Hx Hx'. simpl in Hx'. apply list_elem_of_singleton in Hx'. subst x.
      by apply find_summary_None in Hf.
    + simpl. apply NoDup_singleton.
  - intros _. apply NoDup_nil_2.
Qed.

Lemma run_unique ops : unique_event_ids (Database.run rt ops).
Proof.
  unfold Database.run.
  assert (Hinit : unique_event_ids (init new)) by apply NoDup_nil_2.
  revert Hinit. generalize (init new).
  induction ops as [|op ops IH]; intros d Hd; simpl; [done|].
  apply IH, apply_unique, Hd.
Qed.

Lemma store_all_unique d later : unique_event_ids d -> unique_event_ids (store_all rt d later).
Proof.
  revert d. induction later as [|sn later IH]; intros d Hd; simpl; [done|].
  apply IH, (apply_unique d (OpStoreSummary sn.1 sn.2)), Hd.
Qed.

Lemma store_all_initialized d later : initialized d -> initialized (store_all rt d later).
Proof.
  revert d. induction later as [|sn later IH]; intros d Hd; simpl; [done|].
  apply IH, (apply_initialized d (OpStoreSummary sn.1 sn.2)), Hd.
Qed.

(** A stored summary survives every later attempt. *)
Lemma store_all_keeps d later eid r :
  find_summary eid (summary_rows d) = Some r ->
  find_summary eid (summary_rows (store_all rt d later)) = Some r.
Proof.
  revert d. induction later as [|[s now] later IH]; intros d Hd; simpl; [done|].
  apply IH. destruct d as [[c|]]; [|done]. unfold storeSummary; simpl in *.
  destruct (find_summary (in_event_id s) (summaries c)); simpl; [done|].
  by apply find_summary_app_l.
Qed.

(** A duplicate is ignored: no row changes and nothing is reported; the
    sequence alone has advanced. *)
Lemma storeSummary_duplicate d s now r :
  find_summary (in_event_id s) (summary_rows d) = Some r ->
  exists c, Database.db d = Some c /\
    storeSummary d s now
    = inl (mkStoreResult (last_insert_rowid c) false, mk (Some (skip_row c))).
Proof.
  destruct d as [[c|]]; unfold summary_rows; simpl; [|done]. intros Hf. exists c.
  split; [done|]. unfold storeSummary. simpl. by rewrite Hf.
Qed.

Lemma filter_event_absent eid (rows : list Summary) :
  eid ∉ event_id <$> rows -> filter (fun x => event_id x = eid) rows = [].
Proof.
  induction rows as [|x rows IH]; [done|].
  rewrite fmap_cons, not_elem_of_cons. intros [Hne Hn].
  rewrite filter_cons_False by congruence. by apply IH.
Qed.

Lemma unique_count d eid r :
  unique_event_ids d ->
  find_summary eid (summary_rows d) = Some r ->
  List.length (filter (fun x => event_id x = eid) (summary_rows d)) = 1%nat.
Proof.
  unfold unique_event_ids. generalize (summary_rows d) as rows.
  induction rows as [|x rows IH]; [done|].
  rewrite fmap_cons, NoDup_cons. intros [Hx Hn]. unfold find_summary. simpl.
  unfold string_eqb. case_bool_decide as Hd.
  - intros _. rewrite filter_cons_True by done. simpl. f_equal.
    rewrite filter_event_absent; [done | by rewrite <- Hd].
  - intros Hf. rewrite filter_cons_False by done. by apply IH.
Qed.

End DatabaseFacts.

(** C1.  In every state the store can reach there is at most one summary
    per event identifier.  Once a summary has been stored for an event,
    it stays the one returned for that event through any number of later
    attempts, and a later attempt for the same event changes no row of
    the store (it only draws a number from the sequence of identifiers)
    and reports that nothing was inserted. *)
Theorem storeSummary_first_write_wins (rt : Runtime) (ops : list Database.Op)
    (first dup : Database.SummaryInput) (now now' : string)
    (later : list (Database.SummaryInput * string)) :
  let d0 := Database.run rt ops in
  let e := Database.in_event_id first in
  NoDup (Database.event_id <$> Database.summary_rows d0) /\
  (Database.getSummaryByEventId d0 e = inl None ->
   Database.in_event_id dup = e ->
   exists r d1,
     Database.storeSummary d0 first now = inl (Database.mkStoreResult (Database.s_id r) true, d1)
     /\ r = Database.mkSummary (Database.s_id r) e (Database.in_event_type first)
              (Database.in_repo first) (Database.in_actor first)
              (Database.in_timestamp first) (Database.in_root_cause first)
              (Database.in_impact first) (Database.in_next_steps first)
              (Database.in_raw_summary first) now
     /\ let d2 := store_all rt d1 later in
        Database.getSummaryByEventId d2 e = inl (Some r)
        /\ NoDup (Database.event_id <$> Database.summary_rows d2)
        /\ List.length (filter (fun x => Database.event_id x = e)
                          (Database.summary_rows d2)) = 1%nat
        /\ exists rid c2,
             Database.db d2 = Some c2
             /\ Database.storeSummary d2 dup now'
                = inl (Database.mkStoreResult rid false,
                       Database.mk (Some (Database.skip_row c2)))
             /\ Database.summary_rows (Database.mk (Some (Database.skip_row c2)))
                = Database.summary_rows d2
             /\ Database.getSummaryByEventId (Database.mk (Some (Database.skip_row c2))) e
                = inl (Some r)).
Proof.
  intros d0 e. split; [apply run_unique|].
  intros Hnone Hdup.
  pose proof (run_initialized rt ops) as Hinit. fold d0 in Hinit.
  pose proof (run_unique rt ops) as Huniq. fold d0 in Huniq.
  destruct d0 as [[c|]] eqn:Hd0; [|done]. clear Hinit.
  unfold Database.getSummaryByEventId in Hnone. simpl in Hnone.
  assert (Hf : Database.find_summary e (Database.summaries c) = None)
    by (unfold ret in Hnone; congruence).
  set (r := Database.mkSummary (Database.summaries_seq c + 1) e
              (Database.in_event_type first) (Database.in_repo first)
              (Database.in_actor first) (Database.in_timestamp first)
              (Database.in_root_cause first) (Database.in_impact first)
              (Database.in_next_steps first) (Database.in_raw_summary first) now).
  set (d1 := Database.mk (Some (Database.mkConn (Database.events c)
               (Database.summaries c ++ [r]) (Database.summaries_seq c + 1)
               (Database.normal_count c) (Database.summaries_seq c + 1)))).
  exists r, d1. split; [|split; [done|]].
  { unfold Database.storeSummary. simpl. fold e. by rewrite Hf. }
  assert (Hr1 : Database.find_summary e (Database.summary_rows d1) = Some r).
  { simpl. clear -Hf. induction (Database.summaries c) as [|x rows IH]; simpl.
    - unfold string_eqb. by rewrite bool_decide_eq_true_2.
    - simpl in Hf. destruct (string_eqb (Database.event_id x) e); [done|]. by apply IH. }
  assert (Hu1 : unique_event_ids d1).
  { pose proof (apply_unique rt _ (Database.OpStoreSummary first now) Huniq) as H.
    simpl in H. unfold Database.storeSummary in H. simpl in H. fold e in H.
    by rewrite Hf in H. }
  intros d2.
  pose proof (store_all_keeps rt d1 later e r Hr1) as Hr2. fold d2 in Hr2.
  pose proof (store_all_unique rt d1 later Hu1) as Hu2. fold d2 in Hu2.
  assert (Hi2 : initialized d2) by (apply store_all_initialized; done).
  split; [|split; [done|split]].
  - destruct d2 as [[c2|]]; [|done]. unfold Database.getSummaryByEventId.
    unfold Database.summary_rows in Hr2. simpl in *. by rewrite Hr2.
  - by apply unique_count with r.
  - rewrite <- Hdup in Hr2.
    destruct (storeSummary_duplicate d2 dup now' r Hr2) as (c2 & Hc2 & Hs).
    exists (Database.last_insert_rowid c2), c2.
    unfold Database.summary_rows in *. rewrite Hc2 in *.
    split; [done|]. split; [exact Hs|]. split; [done|].
    unfold Database.getSummaryByEventId. simpl. rewrite Hdup in Hr2. by rewrite Hr2.
Qed.

(** The two attempts of the store's test-suite, after an unrelated one. *)
Lemma storeSummary_first_write_wins_witness :
  exists r d1,
    Database.storeSummary
      (Database.run example_runtime
         [Database.OpStoreSummary (example_summary "old-event" "Old") "t0"])
      (example_summary "test-event-789" "First summary") "t1"
    = inl (Database.mkStoreResult (Database.s_id r) true, d1)
    /\ Database.root_cause r = "First summary"
    /\ Database.getSummaryByEventId
         (store_all example_runtime d1
            [(example_summary "test-event-789" "Second summary", "t2");
             (example_summary "new-event" "New", "t3")])
         "test-event-789" = inl (Some r).
Proof.
  destruct (storeSummary_first_write_wins example_runtime
              [Database.OpStoreSummary (example_summary "old-event" "Old") "t0"]
              (example_summary "test-event-789" "First summary")
              (example_summary "test-event-789" "Second summary") "t1" "t4"
              [(example_summary "test-event-789" "Second summary", "t2");
               (example_summary "new-event" "New", "t3")])
    as [_ H].
  destruct (H eq_refl eq_refl) as (r & d1 & Hs & Hr & Hg & _).
  exists r, d1. split; [exact Hs|]. split; [by rewrite Hr | exact Hg].
Defined.

(** ** The request gate and the worker, over the reachable states *)

Ltac unfold_state :=
  unfold broadcastSummary, broadcastError, broadcastReset, broadcastEvent,
    broadcast, stream_open, stream_close, incrementSummaryCount,
    set_db, set_queue, set_budget, set_pending, set_clients, set_worker,
    set_processing, sleep in *.

Section SystemFacts.

Context (rt : Runtime) (MAX : Z).

Lemma find_summary_snoc_other e rows r :
  Database.event_id r <> e ->
  Database.find_summary e (rows ++ [r]) = Database.find_summary e rows.
Proof.
  intros Hne. unfold Database.find_summary.
  induction rows as [|x rows IH]; simpl.
  - unfold string_eqb. by rewrite bool_decide_eq_false_2.
  - destruct (string_eqb (Database.event_id x) e); [done | apply IH].
Qed.

Lemma storeEvent_summaries d e sc cq cat ctx now d' :
  Database.storeEvent rt d e sc cq cat ctx now = inl d' ->
  Database.summary_rows d' = Database.summary_rows d /\ initialized d'.
Proof.
  intros (c & ? & ? & Hc & _ & _ & ->)%storeEvent_inv.
  unfold Database.summary_rows. rewrite Hc. done.
Qed.

Lemma incrementNormalCounter_summaries d d' :
  Database.incrementNormalCounter d = inl d' ->
  Database.summary_rows d' = Database.summary_rows d /\ initialized d'.
Proof.
  unfold Database.incrementNormalCounter. destruct d as [[c|]]; simpl; [|done].
  intros [= <-]. done.
Qed.

Lemma push_named q job io q' :
  Queue.push q job io = inl q' -> eventId job <> "" ->
  named (Queue.inMemoryQueue q) -> named (Queue.redis_list q) ->
  named (Queue.inMemoryQueue q') /\ named (Queue.redis_list q').
Proof.
  unfold Queue.push, named. intros H Hj Hm Hr.
  repeat case_match; simplify_eq/=; split; try done;
    apply Forall_app; split; try done; by apply Forall_singleton.
Qed.

Lemma pop_named q io r q' :
  Queue.pop q io = inl (r, q') ->
  named (Queue.inMemoryQueue q) -> named (Queue.redis_list q) ->
  named (Queue.inMemoryQueue q') /\ named (Queue.redis_list q')
  /\ forall j, r = Some j -> eventId j <> "".
Proof.
  unfold Queue.pop, named. intros H Hm Hr.
  repeat case_match; simplify_eq/=;
    repeat match goal with
           | H : ?l = _ :: _, H' : Forall _ ?l |- _ => rewrite H in H'
           | H : Forall _ (_ :: _) |- _ => apply Forall_cons in H as [? ?]
           end;
    split_and!; try done;
    try match goal with H : ?l = [] |- Forall _ ?l => by rewrite H end;
    intros j ?; by simplify_eq.
Qed.

Lemma clear_named q io n q' :
  Queue.clear q io = inl (n, q') ->
  named (Queue.inMemoryQueue q) -> named (Queue.redis_list q) ->
  named (Queue.inMemoryQueue q') /\ named (Queue.redis_list q').
Proof.
  unfold Queue.clear, named. intros H Hm Hr.
  repeat case_match; simplify_eq/=; split; done.
Qed.

Lemma inv_get_event_summary s eventId io :
  Inv s -> eventId <> "" ->
  Inv (mkSys (get_event_summary rt MAX (state s) eventId io).2 (inflight s)).
Proof.
  intros [Hdb Hp Hm Hr Hi] Hne. destruct s as [st fl]. simpl in *.
  unfold get_event_summary.
  destruct (Database.getSummaryByEventId (db st) eventId) as [[existing|]|] eqn:Hs;
    simpl; [| |by split].
  { split; simpl; try done.
    intros e [He _]%elem_of_difference. by apply Hp. }
  case_bool_decide; [by split|].
  destruct (Database.getEvent (db st) eventId) as [[ev|]|]; simpl; [| by split..].
  destruct (negb _); [by split|].
  destruct (parse_event rt _); [|by split].
  assert (Hnone : Database.find_summary eventId (Database.summary_rows (db st)) = None).
  { unfold Database.getSummaryByEventId, Database.summary_rows in *.
    destruct (Database.db (db st)); simpl in *; [|done]. unfold ret in Hs. congruence. }
  assert (Hp' : forall e, e ∈ {[eventId]} ∪ pendingEvents st ->
                 Database.find_summary e (Database.summary_rows (db st)) = None).
  { intros e [->%elem_of_singleton|He]%elem_of_union; [done | by apply Hp]. }
  match goal with |- context [match ?x with inl _ => _ | inr _ => _ end] =>
    destruct x end; [|by split].
  match goal with |- context [Queue.push ?q ?job ?io] =>
    destruct (Queue.push q job io) as [q'|] eqn:Hpush end; simpl.
  - unfold_state. simpl in *.
    destruct (push_named _ _ _ _ Hpush Hne Hm Hr). by split.
  - unfold_state. by split.
Qed.

Lemma inv_internal_event s body now fails :
  Inv s -> Inv (mkSys (internal_event rt (state s) body now fails).2 (inflight s)).
Proof.
  intros [Hdb Hp Hm Hr Hi]. destruct s as [st fl]. simpl in *.
  unfold internal_event.
  destruct (body_event body) as [ev|]; [|by split].
  destruct (string_eqb _ _); [by split|].
  case_bool_decide.
  - destruct (Database.incrementNormalCounter (db st)) as [d1|] eqn:H1; [|by split].
    apply incrementNormalCounter_summaries in H1 as [H1 H1'].
    destruct (Database.storeEvent rt d1 _ _ _ _ _ _) as [d2|] eqn:H2.
    + apply storeEvent_summaries in H2 as [H2 H2'].
      unfold_state; split; simpl; try done. intros e He. rewrite H2, H1. by apply Hp.
    + unfold_state; split; simpl; try done. intros e He. rewrite H1. by apply Hp.
  - destruct (Database.storeEvent rt (db st) _ _ _ _ _ _) as [d2|] eqn:H2; [|by split].
    apply storeEvent_summaries in H2 as [H2 H2'].
    unfold_state; split; simpl; try done. intros e He. rewrite H2. by apply Hp.
Qed.

Lemma inv_reset s io now fails :
  Inv s -> Inv (mkSys (reset (state s) io now fails).2 (inflight s)).
Proof.
  intros [Hdb Hp Hm Hr Hi]. destruct s as [st fl]. simpl in *.
  unfold reset.
  destruct (Database.clearAll (db st)) as [[res d]|] eqn:Hc; [|by split].
  assert (Hd : Database.summary_rows d = [] /\ initialized d).
  { unfold Database.clearAll in Hc. destruct (Database.db (db st)); [|done].
    unfold ret in Hc. simplify_eq. done. }
  destruct Hd as [Hd Hd'].
  destruct (Queue.clear _ io) as [[n q]|] eqn:Hq; simpl.
  - unfold_state. simpl in *. destruct (clear_named _ _ _ _ Hq Hm Hr).
    split; simpl; try done.
  - unfold_state. split; simpl; try done. intros e _. by rewrite Hd.
Qed.

Lemma joined_inv lines text :
  joined lines = inl text <-> arrayJoin newline lines = Some text.
Proof.
  unfold joined. destruct (arrayJoin newline lines); simpl; split; congruence.
Qed.

(** What the [try] block has done when it runs to its end. *)
Lemma attempt_inv st job fetch now fails st' :
  attempt rt st job fetch now fails = inl st' ->
  exists summary parsed root_cause impact next_steps res d,
    generateSummary (buildPrompt rt job) fetch = inl summary
    /\ parseSummaryResponse rt summary = inl parsed
    /\ arrayJoin newline (p_root_cause parsed) = Some root_cause
    /\ arrayJoin newline (p_impact parsed) = Some impact
    /\ arrayJoin newline (p_next_steps parsed) = Some next_steps
    /\ Database.storeSummary (db st)
         (Database.mkSummaryInput (eventId job) (gh_type (event job))
            (or_unknown (gh_repo_name (event job)))
            (or_unknown (gh_actor_login (event job)))
            (gh_created_at (event job)) root_cause impact next_steps
            (JSON_stringify rt (parsed_to_js parsed))) now = inl (res, d)
    /\ st' = broadcastSummary (set_db st d)
               (mkFullSummary (Database.res_id res)
                  (Database.mkSummaryInput (eventId job) (gh_type (event job))
                     (or_unknown (gh_repo_name (event job)))
                     (or_unknown (gh_actor_login (event job)))
                     (gh_created_at (event job)) root_cause impact next_steps
                     (JSON_stringify rt (parsed_to_js parsed))) now) fails.
Proof.
  unfold attempt. intros H.
  destruct (generateSummary _ _) as [summary|] eqn:Hg; simpl in H; [|done].
  destruct (parseSummaryResponse rt summary) as [parsed|] eqn:Hparse; simpl in H; [|done].
  destruct (joined (p_root_cause parsed)) as [root_cause|] eqn:H1; simpl in H; [|done].
  destruct (joined (p_impact parsed)) as [impact|] eqn:H2; simpl in H; [|done].
  destruct (joined (p_next_steps parsed)) as [next_steps|] eqn:H3; simpl in H; [|done].
  destruct (Database.storeSummary _ _ _) as [[res d]|] eqn:Hs; simpl in H; [|done].
  injection H as <-.
  apply joined_inv in H1, H2, H3.
  exists summary, parsed, root_cause, impact, next_steps, res, d.
  split_and!; reflexivity || assumption.
Qed.

Lemma inv_attempt st job fetch now fails st' :
  attempt rt st job fetch now fails = inl st' ->
  eventId job <> "" ->
  initialized (db st) ->
  (forall e, e ∈ pendingEvents st ->
     Database.find_summary e (Database.summary_rows (db st)) = None) ->
  initialized (db st')
  /\ (forall e, e ∈ pendingEvents st' ->
        Database.find_summary e (Database.summary_rows (db st')) = None)
  /\ queue st' = queue st.
Proof.
  intros H Hne Hdb Hp.
  apply attempt_inv in H
    as (summary & parsed & root_cause & impact & next_steps & res & d
        & _ & _ & _ & _ & _ & Hs & ->).
  unfold broadcastSummary. simpl.
  unfold string_eqb. rewrite bool_decide_eq_false_2 by done. simpl.
  unfold_state. simpl.
  unfold Database.storeSummary in Hs.
  destruct (db st) as [[c|]] eqn:Hd; [|done]. simpl in *.
  destruct (Database.find_summary (eventId job) (Database.summaries c)) eqn:Hf;
    unfold ret in Hs; simplify_eq; simpl.
  - split; [done|]. split; [|done].
    intros e [He _]%elem_of_difference. by apply Hp.
  - split; [done|]. split; [|done]. intros e [He Hne']%elem_of_difference.
    unfold Database.summary_rows. simpl.
    rewrite find_summary_snoc_other; [by apply Hp|].
    simpl. intros Heq. apply Hne'. by apply elem_of_singleton.
Qed.

Lemma inv_complete st job fetch now fails io ms :
  Inv (mkSys st (Some job)) ->
  Inv (mkSys (sleep (processJob_complete rt st job fetch now fails io).2 ms) None).
Proof.
  intros [Hdb Hp Hm Hr Hi]. simpl in *.
  specialize (Hi job eq_refl).
  unfold processJob_complete.
  destruct (attempt rt st job fetch now fails) as [st'|error] eqn:Ha; simpl.
  - destruct (inv_attempt _ _ _ _ _ _ Ha Hi Hdb Hp) as (Hdb' & Hp' & Hq).
    unfold_state; split; simpl; try done; by rewrite Hq.
  - destruct (is429 error).
    + destruct (Queue.push (queue st) job io) as [q|] eqn:Hpush; simpl.
      * destruct (push_named _ _ _ _ Hpush Hi Hm Hr).
        unfold_state; split; simpl; done.
      * unfold_state; split; simpl; done.
    + destruct (onError st); unfold_state; split; simpl; done.
Qed.

Lemma inv_step s l : Inv s -> Inv (step rt MAX s l).
Proof.
  intros HI. destruct l as [eventId io|body now fails|io now fails|c|c| |times
                           |io|fetch now fails io]; cbn [step state inflight].
  - unfold string_eqb. case_bool_decide; [done|]. by apply inv_get_event_summary.
  - by apply inv_internal_event.
  - by apply inv_reset.
  - destruct HI. unfold_state. case_bool_decide; split; simpl; done.
  - destruct HI. unfold_state. split; simpl; done.
  - destruct HI as [Hdb Hp Hm Hr Hi]. unfold Queue.on_connect.
    destruct (Queue.client _); unfold_state; split; simpl; done.
  - destruct HI as [Hdb Hp Hm Hr Hi]. unfold Queue.retryStrategy.
    destruct (Queue.client _); [destruct (5 <? times)%Z|];
      unfold_state; split; simpl; done.
  - destruct s as [st [job|]]; [done|]. simpl.
    destruct (running st); [|done].
    destruct HI as [Hdb Hp Hm Hr Hi]. simpl in *.
    destruct (Queue.pop (queue st) io) as [[r q]|] eqn:Hpop.
    + destruct (pop_named _ _ _ _ Hpop Hm Hr) as (Hm' & Hr' & Hj).
      destruct r as [job|]; [|unfold_state; split; simpl; done].
      unfold processJob_enter. simpl.
      case_bool_decide; [unfold_state; split; simpl; done|].
      destruct (Database.getSummaryByEventId (db st) (eventId job)) as [[x|]|];
        unfold_state; split; simpl; done.
    + unfold_state; split; simpl; done.
  - destruct s as [st [job|]]; [|done]. cbn [state inflight].
    destruct (processJob_complete rt st job fetch now fails io) as [[e|] st'] eqn:Hc.
    + pose proof (inv_complete st job fetch now fails io 1000 HI) as H.
      rewrite Hc in H. exact H.
    + pose proof (inv_complete st job fetch now fails io 2000 HI) as H.
      rewrite Hc in H. exact H.
Qed.

Lemma inv_run s steps : Inv s -> Inv (run rt MAX s steps).
Proof.
  revert s. induction steps as [|l steps IH]; intros s HI; simpl; [done|].
  apply IH, inv_step, HI.
Qed.

Lemma inv_booted key server_list redisUrl outcome :
  named server_list -> Inv (booted key server_list redisUrl outcome).
Proof.
  intros Hn. unfold booted, start, worker_start, initial, Queue.init, Queue.new,
    Queue.on_connect.
  split; simpl.
  - destruct (string_eqb key ""); done.
  - destruct (string_eqb key ""); simpl; set_solver.
  - destruct (string_eqb key ""), redisUrl as [[|a u]|], outcome; simpl;
      apply Forall_nil_2.
  - destruct (string_eqb key ""), redisUrl as [[|a u]|], outcome; simpl; done.
  - done.
Qed.

End SystemFacts.

(** C2.  In every state the backend reaches from its start, a summary
    request for an event of PendingSet is answered "generating" and
    changes nothing: no job is enqueued and the work queue keeps its
    length. *)
Theorem pending_request_is_generating (rt : Runtime) (MAX : Z) (key : string)
    (server_list : list QueueJob) (redisUrl : option string)
    (outcome : Queue.ConnectOutcome) (steps : list Step)
    (eventId : string) (io : Queue.RedisIo) :
  named server_list ->
  let st := state (run rt MAX (booted key server_list redisUrl outcome) steps) in
  eventId ∈ pendingEvents st ->
  get_event_summary rt MAX st eventId io = (Generating eventId, st).
Proof.
  intros Hn st Hin.
  destruct (inv_run rt MAX _ steps (inv_booted key server_list redisUrl outcome Hn))
    as [Hdb Hp _ _ _].
  fold st in Hdb, Hp. specialize (Hp eventId Hin).
  unfold get_event_summary, Database.getSummaryByEventId.
  unfold initialized in Hdb. unfold Database.summary_rows in Hp.
  destruct (Database.db (db st)); [|done]. simpl. rewrite Hp.
  by rewrite bool_decide_eq_true_2.
Qed.

(** A request made while an earlier one for the same event is pending. *)
Lemma pending_request_is_generating_witness :
  get_event_summary example_runtime 10
    (state (run example_runtime 10 (booted "key" [] None Queue.Connected)
              [InternalEvent (example_body "E1" "security") "t0" no_failure;
               SummaryRequest "E1" Queue.Replied]))
    "E1" Queue.Replied
  = (Generating "E1",
     state (run example_runtime 10 (booted "key" [] None Queue.Connected)
              [InternalEvent (example_body "E1" "security") "t0" no_failure;
               SummaryRequest "E1" Queue.Replied])).
Proof.
  apply (pending_request_is_generating example_runtime 10 "key" [] None Queue.Connected
           [InternalEvent (example_body "E1" "security") "t0" no_failure;
            SummaryRequest "E1" Queue.Replied] "E1" Queue.Replied).
  - apply Forall_nil_2.
  - apply (bool_decide_unpack _). vm_compute. exact I.
Defined.

(** ** The budget gate *)

(** C3, as stated, fails: with both counters at the ceiling, a request
    for an event whose summary is stored is answered with that summary
    and not with "budget exhausted", and a request for an unknown event
    with "not found". *)
Lemma budget_gate_counterexample :
  budget_get (API_BUDGET example_exhausted) security = 1%Z
  /\ budget_get (API_BUDGET example_exhausted) code_quality = 1%Z
  /\ canGenerateSummary 1 example_exhausted security = false
  /\ canGenerateSummary 1 example_exhausted code_quality = false
  /\ (exists s, (get_event_summary example_runtime 1 example_exhausted "E1" Queue.Replied).1
                = StoredSummary s)
  /\ (forall c used max,
        (get_event_summary example_runtime 1 example_exhausted "E1" Queue.Replied).1
        <> BudgetExhausted c used max)
  /\ (get_event_summary example_runtime 1 example_exhausted "E9" Queue.Replied).1
     = EventNotFound.
Proof.
  split; [reflexivity|]. split; [reflexivity|].
  split; [reflexivity|]. split; [reflexivity|].
  split; [eexists; vm_compute; reflexivity|].
  split; [intros c used max; vm_compute; discriminate | vm_compute; reflexivity].
Qed.

(** C3, amended.  [canGenerateSummary] holds exactly when the counter of
    the category is below the ceiling.  A request that reaches the gate
    (no summary stored, event not pending, event known) while the
    counter of its category has reached the ceiling is answered
    "budget exhausted" and changes nothing. *)
Theorem budget_gate (rt : Runtime) (MAX : Z) (st : State) (eventId : string)
    (io : Queue.RedisIo) (event : Database.Event) :
  (forall c, canGenerateSummary MAX st c = true <-> (budget_get (API_BUDGET st) c < MAX)%Z)
  /\ (Database.getSummaryByEventId (db st) eventId = inl None ->
      eventId ∉ pendingEvents st ->
      Database.getEvent (db st) eventId = inl (Some event) ->
      (MAX <= budget_get (API_BUDGET st) (request_category (Database.category event)))%Z ->
      get_event_summary rt MAX st eventId io
      = (BudgetExhausted (request_category (Database.category event))
           (budget_get (API_BUDGET st) (request_category (Database.category event))) MAX,
         st)).
Proof.
  split.
  - intros c. unfold canGenerateSummary. apply Z.ltb_lt.
  - intros Hs Hp He Hb. unfold get_event_summary. rewrite Hs.
    rewrite bool_decide_eq_false_2 by done. rewrite He.
    unfold canGenerateSummary.
    by rewrite (proj2 (Z.ltb_ge _ _) Hb).
Qed.

(** The second of two events of one category, with a ceiling of one. *)
Lemma budget_gate_witness :
  get_event_summary example_runtime 1
    (state (run example_runtime 1 (booted "key" [] None Queue.Connected)
              [InternalEvent (example_body "E1" "security") "t0" no_failure;
               InternalEvent (example_body "E3" "both") "t0" no_failure;
               SummaryRequest "E1" Queue.Replied]))
    "E3" Queue.Replied
  = (BudgetExhausted security 1 1,
     state (run example_runtime 1 (booted "key" [] None Queue.Connected)
              [InternalEvent (example_body "E1" "security") "t0" no_failure;
               InternalEvent (example_body "E3" "both") "t0" no_failure;
               SummaryRequest "E1" Queue.Replied])).
Proof.
  refine (proj2 (budget_gate example_runtime 1 _ "E3" Queue.Replied
                   (Database.mkEvent "E3" "PushEvent" "octo/repo" "octocat"
                      "2024-01-01T00:00:00Z" "E3" None None (Some "both") None "t0" 2))
            _ _ _ _).
  - vm_compute. reflexivity.
  - apply (bool_decide_unpack _). vm_compute. exact I.
  - vm_compute. reflexivity.
  - vm_compute. discriminate.
Defined.

(** ** The worker: failures of the completion call *)

(** A 429 response of the completion API is a rate-limit indication. *)
Lemma http_429_is_rate_limit prompt statusText content :
  exists error,
    generateSummary prompt (FetchResponse 429 statusText content) = inr error
    /\ is429 error = true.
Proof.
  eexists. split; [reflexivity|]. vm_compute. reflexivity.
Qed.

(** The worker never touches the budget counters, whatever becomes of
    the job. *)
Lemma processJob_keeps_budget (rt : Runtime) (st : State) (job : QueueJob)
    (fetch : FetchOutcome) (now : string) (fails : nat -> bool) (io : Queue.RedisIo) :
  API_BUDGET (processJob rt st job fetch now fails io).2 = API_BUDGET st.
Proof.
  unfold processJob, processJob_enter.
  case_bool_decide; [done|].
  destruct (Database.getSummaryByEventId (db st) (eventId job)) as [[x|]|]; try done.
  unfold processJob_complete.
  destruct (attempt rt _ job fetch now fails) as [st'|e] eqn:Ha.
  - apply attempt_inv in Ha as (? & ? & ? & ? & ? & ? & ? & _ & _ & _ & _ & _ & _ & ->).
    unfold broadcastSummary. by destruct (truthy _).
  - cbn [set_processing db queue onError].
    destruct (is429 e); [destruct (Queue.push _ _ _)|destruct (onError st)]; done.
Qed.

(** C4, as stated, fails.  The queue is on Redis and holds the job of
    E1; the completion call is answered 429, and the command that
    should put the job back is rejected.  The exception of the push
    leaves [processJob]: the job is in the queue no more, and the worker
    pauses for the second of the loop's handler, not for the minute. *)
Lemma rate_limit_requeue_counterexample :
  (exists error,
     generateSummary (buildPrompt example_runtime (example_job "E1"))
       (FetchResponse 429 "Too Many Requests" (inl JNull)) = inr error
     /\ is429 error = true)
  /\ Queue.jobs (queue (start (initial "key" [example_job "E1"])
                          (Some "redis://cache:6379") Queue.Connected))
     = [example_job "E1"]
  /\ Queue.jobs
       (queue (processLoop_turn example_runtime
                 (start (initial "key" [example_job "E1"])
                    (Some "redis://cache:6379") Queue.Connected)
                 Queue.Replied (FetchResponse 429 "Too Many Requests" (inl JNull))
                 "t1" no_failure (Queue.Rejected (Error "Connection is closed."))))
     = []
  /\ slept (processLoop_turn example_runtime
              (start (initial "key" [example_job "E1"])
                 (Some "redis://cache:6379") Queue.Connected)
              Queue.Replied (FetchResponse 429 "Too Many Requests" (inl JNull))
              "t1" no_failure (Queue.Rejected (Error "Connection is closed.")))
     = [1000%Z]
  /\ (processJob example_runtime
        (start (initial "key" []) (Some "redis://cache:6379") Queue.Connected)
        (example_job "E1") (FetchResponse 429 "Too Many Requests" (inl JNull))
        "t1" no_failure (Queue.Rejected (Error "Connection is closed."))).1
     = Some (Error "Connection is closed.").
Proof.
  split; [eexists; split; vm_compute; reflexivity|].
  repeat split; vm_compute; reflexivity.
Qed.

(** C4, amended.  When the completion call for a job fails with a
    rate-limit indication and the queue accepts the job (it is the
    in-process one, or the Redis command goes through), the worker
    appends that same job once to the tail of the queue and then pauses
    for 60 s; the budget counters, PendingSet and the store are left as
    they were. *)
Theorem rate_limit_requeues_once (rt : Runtime) (st : State) (job : QueueJob)
    (fetch : FetchOutcome) (now : string) (fails : nat -> bool)
    (io : Queue.RedisIo) (error : JsError) :
  eventId job ∉ processingEvents st ->
  Database.getSummaryByEventId (db st) (eventId job) = inl None ->
  generateSummary (buildPrompt rt job) fetch = inr error ->
  is429 error = true ->
  Queue.useInMemory (queue st) = true
  \/ (Queue.redis (queue st) <> None /\ io = Queue.Replied) ->
  exists st',
    processJob rt st job fetch now fails io = (None, st')
    /\ Queue.jobs (queue st') = (Queue.jobs (queue st) ++ [job])%list
    /\ Queue.useInMemory (queue st') = Queue.useInMemory (queue st)
    /\ slept st' = (slept st ++ [60000%Z])%list
    /\ API_BUDGET st' = API_BUDGET st
    /\ pendingEvents st' = pendingEvents st
    /\ processingEvents st' = processingEvents st
    /\ db st' = db st
    /\ delivered st' = delivered st.
Proof.
  intros Hproc Hnone Hgen H429 Hq.
  unfold processJob, processJob_enter.
  rewrite bool_decide_eq_false_2 by done. rewrite Hnone.
  unfold processJob_complete, attempt. rewrite Hgen. simpl bind. cbv iota.
  rewrite H429.
  assert (Hset : ({[eventId job]} ∪ processingEvents st) ∖ {[eventId job]}
                 = processingEvents st).
  { apply set_eq. intros x.
    rewrite elem_of_difference, elem_of_union, elem_of_singleton.
    split; [intros [[->|?] ?]; done | intros ?; split; [by right | by intros ->]]. }
  unfold Queue.push, Queue.jobs. cbn [queue set_processing].
  destruct Hq as [Hm | [Hr ->]].
  - rewrite Hm. simpl. eexists. split; [reflexivity|].
    unfold_state. simpl. rewrite ?Hm, Hset. done.
  - destruct (Queue.useInMemory (queue st)) eqn:Hm.
    + simpl. eexists. split; [reflexivity|].
      unfold_state. simpl. rewrite Hset. done.
    + destruct (Queue.redis (queue st)) eqn:Hr'; [|done].
      simpl. eexists. split; [reflexivity|].
      unfold_state. simpl. rewrite ?Hm, Hset. done.
Qed.

(** A job on an in-process queue whose completion call is answered 429. *)
Lemma rate_limit_requeues_once_witness :
  exists st',
    processJob example_runtime
      (start (initial "key" []) None Queue.Connected)
      (example_job "E1") (FetchResponse 429 "Too Many Requests" (inl JNull))
      "t1" no_failure Queue.Replied = (None, st')
    /\ Queue.jobs (queue st') = [example_job "E1"]
    /\ slept st' = [60000%Z]
    /\ API_BUDGET st' = mkBudget 0 0.
Proof.
  destruct (rate_limit_requeues_once example_runtime
              (start (initial "key" []) None Queue.Connected)
              (example_job "E1") (FetchResponse 429 "Too Many Requests" (inl JNull))
              "t1" no_failure Queue.Replied
              (Error "OpenAI API error: 429 Too Many Requests"))
    as (st' & Hp & Hj & _ & Hs & Hb & _).
  - apply (bool_decide_unpack _). vm_compute. exact I.
  - reflexivity.
  - reflexivity.
  - reflexivity.
  - left. reflexivity.
  - exists st'. split; [exact Hp|]. split; [exact Hj|]. split; [exact Hs | exact Hb].
Defined.

(** A failure that is not a rate limit never touches PendingSet. *)
Lemma terminal_failure_keeps_pending (rt : Runtime) (st : State) (job : QueueJob)
    (fetch : FetchOutcome) (now : string) (fails : nat -> bool)
    (io : Queue.RedisIo) (error : JsError) :
  attempt rt st job fetch now fails = inr error ->
  is429 error = false ->
  pendingEvents (processJob_complete rt st job fetch now fails io).2 = pendingEvents st
  /\ queue (processJob_complete rt st job fetch now fails io).2 = queue st.
Proof.
  intros Ha H429. unfold processJob_complete. rewrite Ha, H429.
  destruct (onError st); done.
Qed.

(** C5, on the code.  After the completion call has returned JSON that
    breaks off, the job is gone from the queue and an error has been
    sent to the subscriber; but the event is still in PendingSet, and a
    later request for it is answered "generating" without a new job. *)
Theorem malformed_answer_leaves_event_pending :
  Queue.jobs (queue (state example_failed)) = []
  /\ inflight example_failed = None
  /\ last (delivered (state example_failed))
     = Some (7%nat, MsgError (mkErrorReport "E1"
               "Failed to parse AI JSON: SyntaxError: Unexpected end of JSON input"
               "octo/repo" "t1"))
  /\ "E1" ∈ pendingEvents (state example_failed)
  /\ get_event_summary example_runtime 10 (state example_failed) "E1" Queue.Replied
     = (Generating "E1", state example_failed).
Proof.
  split; [vm_compute; reflexivity|]. split; [vm_compute; reflexivity|].
  split; [vm_compute; reflexivity|].
  assert (Hin : "E1" ∈ pendingEvents (state example_failed))
    by (apply (bool_decide_unpack _); vm_compute; exact I).
  split; [exact Hin|].
  unfold get_event_summary.
  assert (Hs : Database.getSummaryByEventId (db (state example_failed)) "E1" = inl None)
    by (vm_compute; reflexivity).
  rewrite Hs. by rewrite bool_decide_eq_true_2.
Qed.

Lemma includes_append needle before text :
  includes needle text = true -> includes needle (before +:+ text) = true.
Proof.
  intros H. induction before as [|c before IH]; [done|].
  change (String c before +:+ text) with (String c (before +:+ text)).
  cbn [includes].
  match goal with |- (if ?b then _ else _) = _ => destruct b end; [done|exact IH].
Qed.

(** A parse error whose message happens to contain "429" (a position, a
    quoted piece of the answer) is taken for a rate limit: the job goes
    back to the queue, the worker pauses and no error is sent. *)
Lemma parse_error_quoting_429_is_requeued (rt : Runtime) (st : State) (job : QueueJob)
    (fetch : FetchOutcome) (now : string) (fails : nat -> bool) (io : Queue.RedisIo)
    (content jsonStr : string) (e : JsError) (q : Queue.t) :
  generateSummary (buildPrompt rt job) fetch = inl content ->
  extract_json rt content = Some jsonStr ->
  JSON_parse rt jsonStr = inr e ->
  includes "429" (message e) = true ->
  Queue.push (queue st) job io = inl q ->
  processJob_complete rt st job fetch now fails io
  = (None, set_processing (sleep (set_queue st q) 60000)
             (processingEvents st ∖ {[eventId job]})).
Proof.
  intros Hg Hx Hp H429 Hq.
  unfold processJob_complete, attempt, parseSummaryResponse, normalize.
  rewrite Hg. cbn [bind]. rewrite Hx, Hp. cbn [bind throw].
  unfold is429. cbn [message Error].
  rewrite (includes_append "429" "Failed to parse AI JSON: " _ H429).
  cbn [orb]. rewrite Hq. done.
Qed.

(** ** The queue: choice of the backend *)

Section QueueFacts.

(** The operations of the queue never touch the choice of the backend. *)
Lemma queue_event_flags q ev :
  (forall times, ev <> QRetry times) -> ev <> QConnect ->
  Queue.useInMemory (queue_event q ev) = Queue.useInMemory q
  /\ Queue.client (queue_event q ev) = Queue.client q
  /\ Queue.redis (queue_event q ev) = Queue.redis q.
Proof.
  intros Hr Hc. destruct ev as [|times|job io|io|io]; simpl.
  - done.
  - by destruct (Hr times).
  - unfold Queue.push. repeat case_match; simplify_eq/=; done.
  - unfold Queue.pop. repeat case_match; simplify_eq/=; done.
  - unfold Queue.clear. repeat case_match; simplify_eq/=; done.
Qed.

(** Without a client that can call back (REDIS_URL unset, or the retry
    budget exhausted) the in-process backend stays selected. *)
Lemma fallback_without_client_is_permanent q evs :
  Queue.useInMemory q = true -> Queue.client q = false ->
  Queue.useInMemory (queue_events q evs) = true
  /\ Queue.client (queue_events q evs) = false.
Proof.
  revert q. induction evs as [|ev evs IH]; intros q Hm Hc; simpl; [done|].
  apply IH.
  - destruct ev as [|times|job io|io|io]; simpl.
    + unfold Queue.on_connect. by rewrite Hc.
    + unfold Queue.retryStrategy. by rewrite Hc.
    + unfold Queue.push. rewrite Hm. done.
    + unfold Queue.pop. rewrite Hm. by destruct (Queue.inMemoryQueue q).
    + unfold Queue.clear. by rewrite Hm.
  - destruct ev as [|times|job io|io|io]; simpl.
    + unfold Queue.on_connect. by rewrite Hc.
    + unfold Queue.retryStrategy. by rewrite Hc.
    + unfold Queue.push. rewrite Hm. done.
    + unfold Queue.pop. rewrite Hm. by destruct (Queue.inMemoryQueue q).
    + unfold Queue.clear. by rewrite Hm.
Qed.

Lemma unconfigured_queue_stays_in_process server_list outcome evs :
  Queue.useInMemory (queue_events (Queue.init (Queue.new server_list) None outcome) evs)
  = true.
Proof. by apply fallback_without_client_is_permanent. Qed.

Lemma exhausted_retries_stay_in_process q times evs :
  (5 < times)%Z -> Queue.client q = true ->
  Queue.useInMemory (queue_events (Queue.retryStrategy q times).2 evs) = true.
Proof.
  intros Ht Hc. apply fallback_without_client_is_permanent;
    unfold Queue.retryStrategy; rewrite Hc, (proj2 (Z.ltb_lt _ _) Ht); done.
Qed.

End QueueFacts.

(** C8, on the code.  After [init] has fallen back because the
    connection failed, the client it built is still alive; when that
    client connects, the queue leaves the in-process backend, and as
    [redis] was set to null every operation throws from then on. *)
Theorem connect_after_fallback_leaves_in_process :
  Queue.useInMemory example_fallen_back = true
  /\ Queue.redis example_fallen_back = None
  /\ Queue.useInMemory (queue_events example_fallen_back [QConnect]) = false
  /\ Queue.push (queue_events example_fallen_back [QConnect]) (example_job "E1")
       Queue.Replied = inr Queue.not_initialized
  /\ Queue.pop (queue_events example_fallen_back [QConnect]) Queue.Replied
     = inr Queue.not_initialized
  /\ Queue.length (queue_events example_fallen_back [QConnect]) Queue.Replied
     = inr Queue.not_initialized
  /\ Queue.clear (queue_events example_fallen_back [QConnect]) Queue.Replied
     = inr Queue.not_initialized.
Proof. repeat split. Qed.

(** ** The parser of the worker *)

Lemma validClasses_includes_str v :
  validClasses_includes v = true ->
  v = JStr "ACTIVE_ATTACK" \/ v = JStr "POLICY_VIOLATION" \/ v = JStr "BENIGN_ANOMALY".
Proof.
  destruct v as [| | | |s| | |]; simpl; try done.
  intros H%bool_decide_eq_true. unfold validClasses in H.
  repeat (apply elem_of_cons in H as [->|H]; [tauto|]).
  by apply elem_of_nil in H.
Qed.

(** What the three steps on [classification] compute, once it has been
    converted to the key of the table. *)
Lemma normalized_classification given key :
  toString given = Some key ->
  let mapped := classificationMap key in
  let c1 := if truthy mapped then mapped else given in
  (if validClasses_includes c1 then c1 else JStr "POLICY_VIOLATION")
  = match classification_table key with
    | Some value => JStr value
    | None => if validClasses_includes given then given else JStr "POLICY_VIOLATION"
    end.
Proof.
  intros Hk. destruct (validClasses_includes given) eqn:Hv.
  - apply validClasses_includes_str in Hv as [->|[->| ->]];
      simpl in Hk; injection Hk as <-; reflexivity.
  - simpl. unfold classificationMap, classification_table.
    destruct (string_eqb key "CRITICAL_ISSUE"); [reflexivity|].
    destruct (string_eqb key "POOR_PRACTICE"); [reflexivity|].
    destruct (string_eqb key "MINOR_CONCERN"); [reflexivity|].
    destruct (string_eqb key "__proto__"); [reflexivity|].
    case_bool_decide; [reflexivity|].
    simpl. by rewrite Hv.
Qed.

(** An answer whose classification cannot be converted to a key of the
    table makes the parser throw, whatever else it holds. *)
Lemma unconvertible_classification_throws (rt : Runtime) (text jsonStr : string)
    (fields : list (string * JsVal)) :
  extract_json rt text = Some jsonStr ->
  JSON_parse rt jsonStr = inl (JObj fields) ->
  toString (or_else (prop "classification" (JObj fields)) (JStr "POLICY_VIOLATION")) = None ->
  parseSummaryResponse rt text
  = inr (Error "Failed to parse AI JSON: TypeError: Cannot convert object to primitive value").
Proof.
  intros Hx Hp Hk. unfold parseSummaryResponse, normalize. rewrite Hx, Hp.
  cbn [bind nullish ret]. rewrite Hk. reflexivity.
Qed.

(** C9, on the code.  The answer is a JSON object whose classification
    is itself an object with a [toString] property.  It is extracted and
    parsed, but looking the classification up in the table throws, the
    parser fails instead of falling back on POLICY_VIOLATION, and the
    job fails with it: no summary is stored and the subscriber is sent
    an error. *)
Theorem unconvertible_classification_fails_the_job :
  extract_json example_runtime unconvertible_answer = Some unconvertible_answer
  /\ JSON_parse example_runtime unconvertible_answer
     = inl (JObj [("classification", JObj [("toString", JNum "1")])])
  /\ parseSummaryResponse example_runtime unconvertible_answer
     = inr (Error
              "Failed to parse AI JSON: TypeError: Cannot convert object to primitive value")
  /\ Database.summary_rows (db (state (example_answered unconvertible_answer))) = []
  /\ Queue.jobs (queue (state (example_answered unconvertible_answer))) = []
  /\ last (delivered (state (example_answered unconvertible_answer)))
     = Some (7%nat, MsgError (mkErrorReport "E1"
               "Failed to parse AI JSON: TypeError: Cannot convert object to primitive value"
               "octo/repo" "t1")).
Proof. repeat split; vm_compute; reflexivity. Qed.

(** ** Category of a request *)





(** ** Reset *)

(** C7.  When the store is open and the queue can be cleared, the reset
    is carried out and answers with the numbers of rows and jobs it
    removed; afterwards both tables are empty, the work queue has length
    zero, both budget counters are zero, PendingSet is empty, and the
    reset notice has been written to every subscriber whose connection
    still takes writes (the others are dropped). *)
Theorem reset_clears_everything (st : State) (io : Queue.RedisIo) (now : string)
    (fails : nat -> bool) :
  initialized (db st) ->
  Queue.useInMemory (queue st) = true
  \/ (Queue.redis (queue st) <> None /\ io = Queue.Replied) ->
  exists st',
    reset st io now fails
    = (ResetDone (Database.eventCount (db st)) (Database.summaryCount (db st))
         (List.length (Queue.jobs (queue st))), st')
    /\ Database.eventCount (db st') = 0%nat
    /\ Database.summaryCount (db st') = 0%nat
    /\ Queue.length (queue st') io = inl 0%nat
    /\ Queue.jobs (queue st') = []
    /\ API_BUDGET st' = mkBudget 0 0
    /\ pendingEvents st' = ∅
    /\ sseClients st' = List.filter (fun c => negb (fails c)) (sseClients st)
    /\ delivered st'
       = (delivered st ++ List.map (fun c => (c, MsgReset now)) (sseClients st'))%list
    /\ (forall c, c ∈ sseClients st -> fails c = false ->
          c ∈ sseClients st' /\ (c, MsgReset now) ∈ delivered st').
Proof.
  intros Hdb Hq. unfold reset, Database.clearAll, Database.eventCount,
    Database.summaryCount, initialized in *.
  destruct (Database.db (db st)) as [c|] eqn:Hc; [|done]. cbn [ret].
  assert (Hlive : forall c, c ∈ sseClients st -> fails c = false ->
            c ∈ List.filter (fun c => negb (fails c)) (sseClients st)).
  { intros x Hx Hf. apply list_elem_of_In, filter_In. split; [by apply list_elem_of_In|].
    by rewrite Hf. }
  unfold Queue.clear, Queue.length, Queue.jobs. cbn [queue set_db].
  destruct Hq as [Hm | [Hr ->]].
  - rewrite Hm. eexists. split; [reflexivity|].
    unfold_state. simpl. rewrite ?Hm. split_and!; try done.
    intros x Hx Hf. split; [by apply Hlive|].
    apply elem_of_app. right.
      apply list_elem_of_In, (in_map (fun c => (c, MsgReset now))), list_elem_of_In.
      by apply Hlive.
  - destruct (Queue.useInMemory (queue st)) eqn:Hm.
    + eexists. split; [reflexivity|].
      unfold_state. simpl. rewrite ?Hm. split_and!; try done.
      intros x Hx Hf. split; [by apply Hlive|].
      apply elem_of_app. right.
      apply list_elem_of_In, (in_map (fun c => (c, MsgReset now))), list_elem_of_In.
      by apply Hlive.
    + destruct (Queue.redis (queue st)) eqn:Hr'; [|done].
      eexists. split; [reflexivity|].
      unfold_state. simpl. rewrite ?Hm. split_and!; try done.
      intros x Hx Hf. split; [by apply Hlive|].
      apply elem_of_app. right.
      apply list_elem_of_In, (in_map (fun c => (c, MsgReset now))), list_elem_of_In.
      by apply Hlive.
Qed.

(** A reset after one event was stored and its summary requested, with
    two subscribers of which the second has gone away. *)
Lemma reset_clears_everything_witness :
  exists st',
    reset
      (state (run example_runtime 10 (booted "key" [] None Queue.Connected)
                [StreamOpen 7; StreamOpen 8;
                 InternalEvent (example_body "E1" "security") "t0" no_failure;
                 SummaryRequest "E1" Queue.Replied]))
      Queue.Replied "t9" (fun c => bool_decide (c = 8%nat))
    = (ResetDone 1 0 1, st')
    /\ API_BUDGET st' = mkBudget 0 0
    /\ pendingEvents st' = ∅
    /\ Queue.jobs (queue st') = []
    /\ sseClients st' = [7%nat]
    /\ last (delivered st') = Some (7%nat, MsgReset "t9").
Proof.
  destruct (reset_clears_everything
              (state (run example_runtime 10 (booted "key" [] None Queue.Connected)
                        [StreamOpen 7; StreamOpen 8;
                         InternalEvent (example_body "E1" "security") "t0" no_failure;
                         SummaryRequest "E1" Queue.Replied]))
              Queue.Replied "t9" (fun c => bool_decide (c = 8%nat)))
    as (st' & Hr & _ & _ & _ & Hj & Hb & Hp & Hc & Hd & _).
  - discriminate.
  - left. reflexivity.
  - exists st'. split; [exact Hr|]. split; [exact Hb|]. split; [exact Hp|].
    split; [exact Hj|]. split; [rewrite Hc; reflexivity|].
    rewrite Hd, Hc. reflexivity.
Defined.

(** ** The poller: backoff *)

Section Backoff.

Import Poller.
Open Scope Q_scope.

Context (cfg : PollerConfig).
Hypothesis floor_nonneg : 0 <= initialBackoff cfg.
Hypothesis floor_le_ceiling : initialBackoff cfg <= maxBackoff cfg.
(** The smallest jitter, 0.8, must not undo the multiplication. *)
Hypothesis multiplier_large : 5 # 4 <= backoffMultiplier cfg.

Lemma new_in_bounds : in_bounds cfg (Poller.new cfg).
Proof. unfold in_bounds, Poller.new. simpl. split; [done|]. split; [lra | done]. Qed.

Lemma resetBackoff_in_bounds p : config p = cfg -> in_bounds cfg (resetBackoff p).
Proof.
  intros Hc. unfold in_bounds, resetBackoff. simpl. rewrite Hc.
  split; [done|]. split; [lra | done].
Qed.

Lemma increaseBackoff_grows p random :
  in_bounds cfg p -> is_random random ->
  currentBackoff p <= currentBackoff (increaseBackoff p random)
  /\ in_bounds cfg (increaseBackoff p random).
Proof.
  intros (Hc & Hlo & Hhi) [Hr0 Hr1]. unfold in_bounds, increaseBackoff. simpl.
  rewrite Hc.
  set (b := currentBackoff p) in *. set (m := backoffMultiplier cfg) in *.
  assert (Hb : 0 <= b) by lra.
  assert (Hgrow : b <= b * m * ((8 # 10) + random * (4 # 10))).
  { assert (H1 : 0 <= b * (m - (5 # 4))) by (apply Qmult_le_0_compat; lra).
    assert (H2 : 0 <= (b * m) * random).
    { apply Qmult_le_0_compat; [|lra]. apply Qmult_le_0_compat; lra. }
    lra. }
  destruct (Q.min_spec (b * m * ((8 # 10) + random * (4 # 10))) (maxBackoff cfg))
    as [[Hlt Hmin]|[Hle Hmin]]; rewrite Hmin; repeat split; try done; lra.
Qed.

Lemma cycle_in_bounds p c random :
  in_bounds cfg p -> is_random random ->
  in_bounds cfg (cycle p c random)
  /\ (success c = true -> currentBackoff (cycle p c random) = initialBackoff cfg)
  /\ (success c = false -> currentBackoff p <= currentBackoff (cycle p c random)).
Proof.
  intros Hb Hr.
  set (p1 := Poller.mk (config p) (currentBackoff p) (S (pollCount p))).
  assert (Hb1 : in_bounds cfg p1) by exact Hb.
  destruct (increaseBackoff_grows p1 random Hb1 Hr) as [Hg Hi].
  assert (Hreset : in_bounds cfg (resetBackoff p1)) by (apply resetBackoff_in_bounds, Hb).
  assert (Hcfg : currentBackoff (resetBackoff p1) = initialBackoff cfg).
  { unfold resetBackoff. simpl. by rewrite (proj1 Hb). }
  unfold cycle, success. fold p1.
  destruct c as [code retryAfter|]; [|done].
  repeat case_bool_decide; simpl; try done; try lia;
    (destruct retryAfter as [text|]; [destruct (string_eqb text "")|]; try done;
     split; [done|]; split; [done|]; intros _; simpl; lra).
Qed.

Lemma poll_in_bounds p cycles :
  in_bounds cfg p -> Forall (fun x => is_random x.2) cycles ->
  in_bounds cfg (poll p cycles).
Proof.
  revert p. induction cycles as [|[c r] cycles IH]; intros p Hb Hr; simpl; [done|].
  apply Forall_cons in Hr as [Hr Hrs]. apply IH; [|done].
  by apply cycle_in_bounds.
Qed.

End Backoff.

(** C6.  For the poller of the program, in whatever state a run of
    cycles has left it: a cycle that does not succeed leaves a backoff at
    least as large as before, a cycle that succeeds puts it back to
    [initialBackoff], and every value [increaseBackoff] computes lies
    between [initialBackoff] and [maxBackoff]. *)
Theorem backoff_is_monotone_and_bounded (cycles : list (Poller.Cycle * Q))
    (c : Poller.Cycle) (random : Q) :
  Forall (fun x => Poller.is_random x.2) cycles ->
  Poller.is_random random ->
  let p := Poller.poll (Poller.new Poller.poller_config) cycles in
  (Poller.success c = false ->
     (Poller.currentBackoff p <= Poller.currentBackoff (Poller.cycle p c random))%Q)
  /\ (Poller.success c = true ->
        Poller.currentBackoff (Poller.cycle p c random)
        = Poller.initialBackoff Poller.poller_config)
  /\ (Poller.initialBackoff Poller.poller_config
        <= Poller.currentBackoff (Poller.increaseBackoff p random))%Q
  /\ (Poller.currentBackoff (Poller.increaseBackoff p random)
        <= Poller.maxBackoff Poller.poller_config)%Q
  /\ (Poller.initialBackoff Poller.poller_config <= Poller.currentBackoff p)%Q
  /\ (Poller.currentBackoff p <= Poller.maxBackoff Poller.poller_config)%Q.
Proof.
  intros Hrs Hr p.
  assert (H0 : (0 <= Poller.initialBackoff Poller.poller_config)%Q) by done.
  assert (H1 : (Poller.initialBackoff Poller.poller_config
                <= Poller.maxBackoff Poller.poller_config)%Q) by done.
  assert (H2 : (5 # 4 <= Poller.backoffMultiplier Poller.poller_config)%Q) by done.
  assert (Hp : in_bounds Poller.poller_config p).
  { apply poll_in_bounds; done || by apply new_in_bounds. }
  destruct (cycle_in_bounds _ H0 H1 H2 p c random Hp Hr) as (_ & Hs & Hf).
  destruct (increaseBackoff_grows _ H0 H1 H2 p random Hp Hr) as (_ & _ & Hlo & Hhi).
  destruct Hp as (_ & Hplo & Hphi).
  split; [exact Hf|]. split; [exact Hs|]. done.
Qed.

(** Three failures (a rate limit without hint, an unexpected status, an
    exception), then a rate limit. *)
Lemma backoff_is_monotone_and_bounded_witness :
  (Poller.currentBackoff
     (Poller.poll (Poller.new Poller.poller_config)
        [(Poller.Responded 429 None, 0%Q); (Poller.Responded 500 None, 1 # 2);
         (Poller.Threw, 9 # 10)])
   <= Poller.currentBackoff
        (Poller.cycle
           (Poller.poll (Poller.new Poller.poller_config)
              [(Poller.Responded 429 None, 0%Q); (Poller.Responded 500 None, 1 # 2);
               (Poller.Threw, 9 # 10)])
           (Poller.Responded 403 None) (1 # 4)))%Q.
Proof.
  refine (proj1 (backoff_is_monotone_and_bounded
                   [(Poller.Responded 429 None, 0%Q); (Poller.Responded 500 None, 1 # 2);
                    (Poller.Threw, 9 # 10)]
                   (Poller.Responded 403 None) (1 # 4) _ _) _).
  - repeat constructor; simpl; lra.
  - split; lra.
  - reflexivity.
Defined.

(** * Further properties *)

Lemma find_app_None {A} (f : A -> bool) l1 l2 :
  List.find f l1 = None -> List.find f (l1 ++ l2) = List.find f l2.
Proof.
  induction l1 as [|x l1 IH]; [done|]. simpl. destruct (f x); [done | exact IH].
Qed.

Lemma find_app_Some {A} (f : A -> bool) l1 l2 x :
  List.find f l1 = Some x -> List.find f (l1 ++ l2) = Some x.
Proof.
  induction l1 as [|y l1 IH]; [done|]. simpl. destruct (f y); [done | exact IH].
Qed.

(** ** The record store: events *)

Section EventFacts.

Import Database DatabaseQueries.

Context (rt : Runtime).

Lemma find_event_filter_other eid other rows :
  other <> eid ->
  List.find (fun e => string_eqb (id e) other) (filter (fun r => id r ≠ eid) rows)
  = List.find (fun e => string_eqb (id e) other) rows.
Proof.
  intros Hne. induction rows as [|x rows IH]; [done|].
  unfold string_eqb in *. simpl. destruct (decide (id x ≠ eid)) as [Hx|Hx].
  - rewrite filter_cons_True by done. simpl. by rewrite IH.
  - rewrite filter_cons_False by done. rewrite IH.
    rewrite bool_decide_eq_false_2; [done|]. apply dec_stable in Hx. congruence.
Qed.

Lemma find_event_absent eid rows :
  List.find (fun e => string_eqb (id e) eid) (filter (fun r => id r ≠ eid) rows) = None.
Proof.
  induction rows as [|x rows IH]; [done|].
  destruct (decide (id x ≠ eid)) as [Hx|Hx].
  - rewrite filter_cons_True by done. simpl. unfold string_eqb in *.
    by rewrite bool_decide_eq_false_2.
  - by rewrite filter_cons_False.
Qed.



Lemma filter_ne_length eid (rows : list Event) :
  NoDup (id <$> rows) ->
  List.length (filter (fun r => id r ≠ eid) rows)
  = if bool_decide (eid ∈ id <$> rows) then pred (List.length rows) else List.length rows.
Proof.
  induction rows as [|x rows IH]; [done|].
  rewrite fmap_cons, NoDup_cons. intros [Hx Hn]. specialize (IH Hn).
  destruct (decide (id x ≠ eid)) as [Hne|Heq].
  - rewrite filter_cons_True by done. simpl. rewrite IH.
    case_bool_decide as H1; case_bool_decide as H2; try done.
    + destruct rows; [by apply elem_of_nil in H1 | done].
    + exfalso. apply H2. by right.
    + exfalso. apply elem_of_cons in H2 as [->|?]; done.
  - rewrite filter_cons_False by done. apply dec_stable in Heq. subst eid.
    rewrite bool_decide_eq_false_2 in IH by done.
    rewrite bool_decide_eq_true_2 by left. simpl. exact IH.
Qed.

Lemma apply_unique_events d op : unique_events d -> unique_events (apply rt d op).
Proof.
  unfold unique_events. destruct d as [[c|]]; [|by destruct op].
  destruct op as [e sc cq cat ctx now|s now| |]; try done.
  - destruct (apply_storeEvent rt (mk (Some c)) e sc cq cat ctx now)
      as [->|(d' & (c' & ty & ca & Hc & _ & _ & ->)%storeEvent_inv & ->)]; [done|].
    simpl in Hc. injection Hc as <-. simpl.
    intros Hn. rewrite fmap_app. apply NoDup_app. split; [|split].
    + clear -Hn. induction (events c) as [|x rows IH]; [done|].
      rewrite fmap_cons, NoDup_cons in Hn. destruct Hn as [Hx Hn].
      destruct (decide (id x ≠ rc_id e)).
      * rewrite filter_cons_True by done. rewrite fmap_cons. apply NoDup_cons.
        split; [|by apply IH]. intros Hin. apply Hx.
        apply list_elem_of_fmap in Hin as (y & -> & Hy).
        apply list_elem_of_fmap. exists y. split; [done|].
        by apply list_elem_of_filter in Hy as [_ ?].
      * rewrite filter_cons_False by done. by apply IH.
    + intros x Hx Hx'. apply list_elem_of_singleton in Hx'. simpl in Hx'. subst x.
      apply list_elem_of_fmap in Hx as (y & Hy & Hin).
      apply list_elem_of_filter in Hin as [Hne _]. congruence.
    + apply NoDup_singleton.
  - simpl. unfold storeSummary. simpl. by destruct (find_summary _ _).
  - intros _. apply NoDup_nil_2.
Qed.

Lemma run_unique_events ops : unique_events (Database.run rt ops).
Proof.
  unfold Database.run.
  assert (Hinit : unique_events (init new)) by apply NoDup_nil_2.
  revert Hinit. generalize (init new).
  induction ops as [|op ops IH]; intros d Hd; simpl; [done|].
  apply IH, apply_unique_events, Hd.
Qed.

End EventFacts.

Lemma storeEvent_row (rt : Runtime) (d : Database.t) (event : ReceivedEvent)
    (type created_at : string)
    (score codeQualityScore : option Score) (category : option string)
    (repoContext : JsVal) (now : string) :
  initialized d ->
  storable event type created_at ->
  exists d' row,
    Database.storeEvent rt d event score codeQualityScore category repoContext now = inl d'
    /\ Database.getEvent d' (rc_id event) = inl (Some row)
    /\ Database.id row = rc_id event
    /\ Database.type row = type
    /\ Database.repo row = default "unknown" (rc_repo_name event)
    /\ Database.actor row = default "unknown" (rc_actor_login event)
    /\ Database.created_at row = created_at
    /\ Database.payload row = stringify_event rt event
    /\ Database.score row = score_or_null score
    /\ Database.category row = category
    /\ Database.repo_context row
       = (if truthy repoContext then Some (JSON_stringify rt repoContext) else None)
    /\ Database.stored_at row = now
    /\ (forall other, other <> rc_id event -> Database.getEvent d' other = Database.getEvent d other)
    /\ Database.summary_rows d' = Database.summary_rows d
    /\ initialized d'.
Proof.
  unfold initialized, storable, Database.storeEvent, Database.getEvent,
    Database.summary_rows.
  destruct (Database.db d) as [c|]; [intros _|done]. intros [-> ->]. cbn [ret].
  eexists _, _. split; [reflexivity|]. cbn [Database.db Database.events].
  split.
  { rewrite find_app_None by apply find_event_absent. simpl.
    unfold string_eqb. by rewrite bool_decide_eq_true_2. }
  cbn. split_and!; try done.
  intros other Hne. f_equal.
  rewrite <- (find_event_filter_other (rc_id event) other (Database.events c)) by done.
  destruct (List.find _ (filter _ (Database.events c))) as [x|] eqn:Hf.
  - by apply find_app_Some.
  - rewrite find_app_None by done. simpl. unfold string_eqb.
    rewrite bool_decide_eq_false_2; [done|]. simpl. congruence.
Qed.

(** An event that lacks its type or its creation time is refused. *)
Lemma storeEvent_refused (rt : Runtime) (d : Database.t) (event : ReceivedEvent)
    (score codeQualityScore : option Score) (category : option string)
    (repoContext : JsVal) (now : string) :
  (forall type created_at, ~ storable event type created_at) ->
  exists e,
    Database.storeEvent rt d event score codeQualityScore category repoContext now = inr e.
Proof.
  unfold storable, Database.storeEvent. intros Hn.
  destruct (Database.db d) as [c|]; [|by eexists].
  destruct (rc_type event) as [type| |], (rc_created_at event) as [created_at| |];
    try by eexists.
  by destruct (Hn type created_at).
Qed.

(** X1.  Storing an event that has its type and its creation time and
    reading it back: the row read for the event carries what was bound,
    and the rows read for the other identifiers are the ones read
    before.  An event that lacks one of the two (the property is missing
    or null) is refused by the store, which throws. *)
Theorem storeEvent_then_getEvent (rt : Runtime) (d : Database.t) (event : ReceivedEvent)
    (score codeQualityScore : option Score) (category : option string)
    (repoContext : JsVal) (now : string) :
  initialized d ->
  (forall type created_at,
     storable event type created_at ->
     exists d' row,
       Database.storeEvent rt d event score codeQualityScore category repoContext now
       = inl d'
       /\ Database.getEvent d' (rc_id event) = inl (Some row)
       /\ Database.id row = rc_id event
       /\ Database.type row = type
       /\ Database.repo row = default "unknown" (rc_repo_name event)
       /\ Database.actor row = default "unknown" (rc_actor_login event)
       /\ Database.created_at row = created_at
       /\ Database.payload row = stringify_event rt event
       /\ Database.score row = score_or_null score
       /\ Database.category row = category
       /\ Database.stored_at row = now
       /\ (forall other, other <> rc_id event ->
             Database.getEvent d' other = Database.getEvent d other)
       /\ Database.summary_rows d' = Database.summary_rows d)
  /\ ((forall type created_at, ~ storable event type created_at) ->
      exists e,
        Database.storeEvent rt d event score codeQualityScore category repoContext now
        = inr e).
Proof.
  intros Hd. split.
  - intros type created_at Hs.
    destruct (storeEvent_row rt d event type created_at score codeQualityScore category
                repoContext now Hd Hs)
      as (d' & row & H1 & H2 & H3 & H4 & H5 & H6 & H7 & H8 & H9 & H10 & _ & H11 & H12
          & H13 & _).
    exists d', row. split_and!; assumption.
  - apply storeEvent_refused.
Qed.

(** The first test of the store's test-suite, and an event without type. *)
Lemma storeEvent_then_getEvent_witness :
  (exists d' row,
     Database.storeEvent example_runtime (Database.init Database.new)
       (example_event "test-event-123")
       (Some (mkScore (Some "0.75") true None)) None (Some "security") JNull "t0" = inl d'
     /\ Database.getEvent d' "test-event-123" = inl (Some row)
     /\ Database.score row = Some "0.75"
     /\ Database.category row = Some "security")
  /\ (exists e,
        Database.storeEvent example_runtime (Database.init Database.new)
          (mkReceivedEvent "test-event-456" Missing None None
             (Text "2024-01-01T00:00:00Z") JNull)
          None None (Some "normal") JNull "t0" = inr e).
Proof.
  split.
  - destruct (storeEvent_then_getEvent example_runtime (Database.init Database.new)
                (example_event "test-event-123")
                (Some (mkScore (Some "0.75") true None)) None (Some "security") JNull "t0")
      as [H _]; [discriminate|].
    destruct (H "PushEvent" "2024-01-01T00:00:00Z")
      as (d' & row & Hs & Hg & _ & _ & _ & _ & _ & _ & Hsc & Hc & _).
    + split; reflexivity.
    + exists d', row. split; [exact Hs|]. split; [exact Hg|]. split; [exact Hsc | exact Hc].
  - destruct (storeEvent_then_getEvent example_runtime (Database.init Database.new)
                (mkReceivedEvent "test-event-456" Missing None None
                   (Text "2024-01-01T00:00:00Z") JNull)
                None None (Some "normal") JNull "t0")
      as [_ H]; [discriminate|].
    apply H. intros type created_at [Ht _]. discriminate Ht.
Defined.


(** X2.  The identifier is the primary key of [events]: in every state the
    store can reach the identifiers are pairwise distinct.  Storing an
    event that has its type and its creation time replaces the row of
    the same identifier, so the number of rows grows by one for a new
    identifier and stays for a known one; any other event is refused and
    no row is added or replaced. *)
Theorem storeEvent_replaces (rt : Runtime) (ops : list Database.Op) (event : ReceivedEvent)
    (score codeQualityScore : option Score) (category : option string)
    (repoContext : JsVal) (now : string) :
  NoDup (Database.id <$> match Database.db (Database.run rt ops) with
                          | Some c => Database.events c
                          | None => []
                          end)
  /\ match rc_type event, rc_created_at event with
     | Text _, Text _ =>
         exists d',
           Database.storeEvent rt (Database.run rt ops) event score codeQualityScore
             category repoContext now = inl d'
           /\ Database.eventCount d'
              = match Database.getEvent (Database.run rt ops) (rc_id event) with
                | inl (Some _) => Database.eventCount (Database.run rt ops)
                | _ => S (Database.eventCount (Database.run rt ops))
                end
     | _, _ =>
         (exists e,
            Database.storeEvent rt (Database.run rt ops) event score codeQualityScore
              category repoContext now = inr e)
         /\ Database.run rt (ops ++ [Database.OpStoreEvent event score codeQualityScore
                                       category repoContext now])
            = Database.run rt ops
     end.
Proof.
  pose proof (run_unique_events rt ops) as Hu.
  pose proof (run_initialized rt ops) as Hi.
  split; [exact Hu|].
  assert (Hrefused : (forall type created_at, ~ storable event type created_at) ->
            (exists e,
               Database.storeEvent rt (Database.run rt ops) event score codeQualityScore
                 category repoContext now = inr e)
            /\ Database.run rt (ops ++ [Database.OpStoreEvent event score codeQualityScore
                                          category repoContext now])
               = Database.run rt ops).
  { intros Hn.
    destruct (storeEvent_refused rt (Database.run rt ops) event score codeQualityScore
                category repoContext now Hn) as [e He].
    split; [by exists e|].
    unfold Database.run. rewrite foldl_app. simpl.
    fold (Database.run rt ops). by rewrite He. }
  destruct (rc_type event) as [type| |] eqn:Ht,
           (rc_created_at event) as [created_at| |] eqn:Hc;
    try (apply Hrefused; unfold storable; intros ? ? [? ?]; congruence).
  clear Hrefused.
  unfold unique_events, initialized, Database.storeEvent, Database.getEvent,
    Database.eventCount in *.
  destruct (Database.db (Database.run rt ops)) as [c|]; [|done]. cbn [ret].
  rewrite Ht, Hc.
  eexists. split; [reflexivity|]. cbn [Database.db Database.events].
  rewrite length_app, (filter_ne_length _ _ Hu). simpl.
  destruct (List.find _ (Database.events c)) as [x|] eqn:Hf.
  - apply find_some in Hf as [Hin Heq]. unfold string_eqb in Heq.
    apply bool_decide_eq_true in Heq.
    rewrite bool_decide_eq_true_2.
    + destruct (Database.events c); [done|]. simpl. lia.
    + apply list_elem_of_fmap. exists x. split; [done | by apply list_elem_of_In].
  - rewrite bool_decide_eq_false_2; [lia|].
    intros (y & Hy & Hin)%list_elem_of_fmap.
    apply list_elem_of_In in Hin.
    pose proof (find_none _ _ Hf y Hin) as Hn. unfold string_eqb in Hn. simpl in Hn.
    by rewrite bool_decide_eq_true_2 in Hn.
Qed.

(** ** The record store: the read queries *)

Section QueryFacts.

Import Database DatabaseQueries.

Context (rt : Runtime).







Lemma normal_count_run d c ops n :
  db d = Some c -> normal_count c = n ->
  exists c', db (foldl (apply rt) d ops) = Some c'
    /\ normal_count c'
       = foldl (fun n op =>
                  match op with
                  | OpIncrementNormalCounter => n + 1
                  | OpClearAll => 0
                  | _ => n
                  end) n ops.
Proof.
  revert d c n. induction ops as [|op ops IH]; intros d c n Hd Hn; simpl; [eauto|].
  destruct d as [d0]. simpl in Hd. subst d0.
  destruct op as [e sc cq cat ctx now|s now| |].
  - destruct (apply_storeEvent rt (mk (Some c)) e sc cq cat ctx now)
      as [->|(d' & (c' & ty & ca & Hc & _ & _ & ->)%storeEvent_inv & ->)].
    + eapply IH; [reflexivity | done].
    + simpl in Hc. injection Hc as <-. eapply IH; [reflexivity | done].
  - simpl. unfold storeSummary. simpl.
    destruct (find_summary _ _); eapply IH; try reflexivity; done.
  - simpl. eapply IH; [reflexivity|]. simpl. by rewrite Hn.
  - simpl. eapply IH; [reflexivity | done].
Qed.

Lemma count_categories_le (rows : list Event) :
  (count_category "security" rows + count_category "code_quality" rows
   <= Z.of_nat (List.length rows))%Z.
Proof.
  unfold count_category. induction rows as [|x rows IH]; simpl; [done|].
  destruct (decide (category x = Some "security")) as [H1|H1];
    destruct (decide (category x = Some "code_quality")) as [H2|H2];
    try (rewrite H1 in H2; discriminate).
  - rewrite filter_cons_True, filter_cons_False by (done || congruence). simpl. lia.
  - rewrite filter_cons_False, filter_cons_True by (done || congruence). simpl. lia.
  - rewrite !filter_cons_False by done. lia.
Qed.

End QueryFacts.

(** X3.  [getTotalCounts] in a reachable store: the normal total is the
    number of calls of [incrementNormalCounter] since the last
    [clearAll], whatever rows are stored; the two other totals count
    rows and never exceed the number of rows; [total] is their sum. *)
Theorem getTotalCounts_counts (rt : Runtime) (ops : list Database.Op) :
  exists counts,
    DatabaseQueries.getTotalCounts (Database.run rt ops) = inl counts
    /\ DatabaseQueries.totalNormal counts = increments_since_clear ops
    /\ (0 <= DatabaseQueries.totalSecurity counts)%Z
    /\ (0 <= DatabaseQueries.totalCodeQuality counts)%Z
    /\ (DatabaseQueries.totalSecurity counts + DatabaseQueries.totalCodeQuality counts
        <= Z.of_nat (Database.eventCount (Database.run rt ops)))%Z
    /\ DatabaseQueries.total counts
       = (DatabaseQueries.totalSecurity counts + DatabaseQueries.totalCodeQuality counts
          + DatabaseQueries.totalNormal counts)%Z.
Proof.
  destruct (normal_count_run rt (Database.init Database.new) _ ops 0 eq_refl eq_refl)
    as (c & Hc & Hn).
  unfold DatabaseQueries.getTotalCounts, Database.eventCount, Database.run.
  rewrite Hc. eexists. split; [reflexivity|]. simpl.
  split; [exact Hn|]. unfold DatabaseQueries.count_category.
  split; [lia|]. split; [lia|]. split; [|done].
  apply count_categories_le.
Qed.



(** ** The queue *)

Lemma push_jobs q job :
  Queue.useInMemory q = true \/ Queue.redis q <> None ->
  exists q', Queue.push q job Queue.Replied = inl q'
    /\ Queue.jobs q' = (Queue.jobs q ++ [job])%list
    /\ Queue.useInMemory q' = Queue.useInMemory q
    /\ Queue.redis q' = Queue.redis q.
Proof.
  unfold Queue.push, Queue.jobs. intros [Hm|Hr].
  - rewrite Hm. eexists. split; [reflexivity|]. simpl. by rewrite ?Hm.
  - destruct (Queue.useInMemory q) eqn:Hm.
    + eexists. split; [reflexivity|]. simpl. by rewrite ?Hm.
    + destruct (Queue.redis q); [|done]. eexists. split; [reflexivity|].
      simpl. by rewrite ?Hm.
Qed.

Lemma push_all_jobs q jobs :
  Queue.useInMemory q = true \/ Queue.redis q <> None ->
  Queue.jobs (push_all q jobs Queue.Replied) = (Queue.jobs q ++ jobs)%list
  /\ (Queue.useInMemory (push_all q jobs Queue.Replied) = true
      \/ Queue.redis (push_all q jobs Queue.Replied) <> None).
Proof.
  unfold push_all, queue_events.
  revert q. induction jobs as [|job jobs IH]; intros q Hq; simpl.
  - by rewrite app_nil_r.
  - destruct (push_jobs q job Hq) as (q' & Hp & Hj & Hm & Hr). rewrite Hp.
    assert (Hq' : Queue.useInMemory q' = true \/ Queue.redis q' <> None)
      by (rewrite Hm, Hr; exact Hq).
    destruct (IH q' Hq') as [IH1 IH2]. split; [|exact IH2].
    etransitivity; [exact IH1|]. by rewrite Hj, <- app_assoc.
Qed.

Lemma drain_jobs q :
  Queue.useInMemory q = true \/ Queue.redis q <> None ->
  (drain (List.length (Queue.jobs q)) q Queue.Replied).1 = Queue.jobs q
  /\ Queue.jobs (drain (List.length (Queue.jobs q)) q Queue.Replied).2 = []
  /\ Queue.pop (drain (List.length (Queue.jobs q)) q Queue.Replied).2 Queue.Replied
     = inl (None, (drain (List.length (Queue.jobs q)) q Queue.Replied).2).
Proof.
  remember (Queue.jobs q) as js eqn:Hjs. revert q Hjs.
  induction js as [|j js IH]; intros q Hjs Hq; simpl.
  - unfold Queue.pop, Queue.jobs in *. split; [done|]. split; [done|].
    destruct Hq as [Hm|Hr].
    + rewrite Hm in *. by rewrite <- Hjs.
    + destruct (Queue.useInMemory q); [by rewrite <- Hjs|].
      destruct (Queue.redis q); [|done]. by rewrite <- Hjs.
  - assert (Hpop : exists q', Queue.pop q Queue.Replied = inl (Some j, q')
                     /\ Queue.jobs q' = js
                     /\ (Queue.useInMemory q' = true \/ Queue.redis q' <> None)).
    { unfold Queue.pop, Queue.jobs in *. destruct Hq as [Hm|Hr].
      - rewrite Hm in *. rewrite <- Hjs. eexists. split; [reflexivity|].
        simpl. rewrite ?Hm. split; [done | by left].
      - destruct (Queue.useInMemory q) eqn:Hm.
        + rewrite <- Hjs. eexists. split; [reflexivity|].
          simpl. rewrite ?Hm. split; [done | by left].
        + destruct (Queue.redis q) eqn:Hr'; [|done]. rewrite <- Hjs.
          eexists. split; [reflexivity|]. simpl. rewrite ?Hm.
          split; [done | right; done]. }
    destruct Hpop as (q' & Hp & Hj & Hq'). rewrite Hp. simpl.
    destruct (IH q' (eq_sym Hj) Hq') as (IH1 & IH2 & IH3).
    rewrite IH1. done.
Qed.

(** X5.  The queue is first in, first out on either backend: after jobs have
    been pushed, as many calls of [pop] as there are jobs return the jobs
    that were waiting and then the pushed ones, in the order of their
    arrival, and the next [pop] returns none. *)
Theorem queue_is_fifo (q : Queue.t) (jobs : list QueueJob) :
  Queue.useInMemory q = true \/ Queue.redis q <> None ->
  Queue.length (push_all q jobs Queue.Replied) Queue.Replied
  = inl (List.length (Queue.jobs q) + List.length jobs)%nat
  /\ (drain (List.length (Queue.jobs q) + List.length jobs)
        (push_all q jobs Queue.Replied) Queue.Replied).1
     = (Queue.jobs q ++ jobs)%list
  /\ Queue.pop
       (drain (List.length (Queue.jobs q) + List.length jobs)
          (push_all q jobs Queue.Replied) Queue.Replied).2 Queue.Replied
     = inl (None,
            (drain (List.length (Queue.jobs q) + List.length jobs)
               (push_all q jobs Queue.Replied) Queue.Replied).2).
Proof.
  intros Hq. destruct (push_all_jobs q jobs Hq) as [Hj Hq'].
  pose proof (drain_jobs _ Hq') as Hd. rewrite Hj, length_app in Hd.
  destruct Hd as (Hd1 & _ & Hd3). split; [|split; [exact Hd1 | exact Hd3]].
  rewrite <- length_app, <- Hj. unfold Queue.length, Queue.jobs.
  destruct Hq' as [Hm|Hr].
  - rewrite Hm. reflexivity.
  - destruct (Queue.useInMemory (push_all q jobs Queue.Replied)); [reflexivity|].
    destruct (Queue.redis (push_all q jobs Queue.Replied)); [reflexivity | done].
Qed.

Lemma queue_is_fifo_witness :
  (drain 3 (push_all (Queue.init (Queue.new [example_job "E0"]) (Some "redis://cache:6379")
                        Queue.Connected)
              [example_job "E1"; example_job "E2"] Queue.Replied) Queue.Replied).1
  = [example_job "E0"; example_job "E1"; example_job "E2"].
Proof.
  refine (proj1 (proj2 (queue_is_fifo
            (Queue.init (Queue.new [example_job "E0"]) (Some "redis://cache:6379")
               Queue.Connected)
            [example_job "E1"; example_job "E2"] _))).
  right. discriminate.
Defined.

(** X6.  [retryStrategy] asks for five reconnections, after 1, 2, 3, 4 and
    5 seconds: every delay it returns is [times] seconds and at most
    5000 ms, so the cap of 10 seconds is never reached; a sixth failure
    selects the in-process backend and ends the reconnections. *)
Theorem retryStrategy_delays (q : Queue.t) (times : Z) :
  Queue.client q = true ->
  ((times <= 5)%Z ->
     Queue.retryStrategy q times = (Some (times * 1000)%Z, q)
     /\ (times * 1000 <= 5000)%Z)
  /\ ((5 < times)%Z ->
        (Queue.retryStrategy q times).1 = None
        /\ Queue.useInMemory (Queue.retryStrategy q times).2 = true
        /\ Queue.inMemoryQueue (Queue.retryStrategy q times).2 = Queue.inMemoryQueue q
        /\ Queue.redis_list (Queue.retryStrategy q times).2 = Queue.redis_list q).
Proof.
  intros Hc. unfold Queue.retryStrategy. rewrite Hc. split; intros Ht.
  - rewrite (proj2 (Z.ltb_ge _ _)) by lia. split; [|lia].
    by rewrite Z.min_l by lia.
  - by rewrite (proj2 (Z.ltb_lt _ _) Ht).
Qed.

Lemma retryStrategy_delays_witness :
  Queue.retryStrategy example_fallen_back 5 = (Some 5000%Z, example_fallen_back).
Proof.
  refine (proj1 (proj1 (retryStrategy_delays example_fallen_back 5 eq_refl) _)).
  lia.
Defined.

(** ** The budget over the reachable states *)

Section BudgetFacts.

Context (rt : Runtime) (MAX : Z).

Lemma processJob_complete_keeps_budget st job fetch now fails io :
  API_BUDGET (processJob_complete rt st job fetch now fails io).2 = API_BUDGET st.
Proof.
  unfold processJob_complete.
  destruct (attempt rt st job fetch now fails) as [st'|e] eqn:Ha.
  - apply attempt_inv in Ha as (? & ? & ? & ? & ? & ? & ? & _ & _ & _ & _ & _ & _ & ->).
    unfold broadcastSummary. by destruct (truthy _).
  - destruct (is429 e); [destruct (Queue.push _ _ _)|destruct (onError st)]; done.
Qed.

Lemma get_event_summary_within st eventId io :
  within_budget MAX (API_BUDGET st) ->
  within_budget MAX (API_BUDGET (get_event_summary rt MAX st eventId io).2).
Proof.
  intros Hw. unfold get_event_summary.
  destruct (Database.getSummaryByEventId (db st) eventId) as [[existing|]|]; [done| |done].
  case_bool_decide; [done|].
  destruct (Database.getEvent (db st) eventId) as [[ev|]|]; [|done..].
  destruct (canGenerateSummary MAX st _) eqn:Hcan; [|done]. cbn [negb].
  destruct (parse_event rt _); [|done].
  match goal with |- context [match ?x with inl _ => _ | inr _ => _ end] =>
    destruct x end; [|done].
  assert (Hinc : within_budget MAX
            (API_BUDGET (incrementSummaryCount
               (set_pending st ({[eventId]} ∪ pendingEvents st))
               (request_category (Database.category ev))))).
  { unfold canGenerateSummary in Hcan. apply Z.ltb_lt in Hcan.
    intros c. destruct (Hw c) as [H0 H1].
    destruct (Hw (request_category (Database.category ev))) as [H2 H3].
    unfold incrementSummaryCount, set_budget, set_pending. cbn [API_BUDGET].
    destruct (request_category (Database.category ev)), c; simpl in *; lia. }
  match goal with |- context [Queue.push ?q ?job ?io] =>
    destruct (Queue.push q job io) end; exact Hinc.
Qed.

Lemma step_within s l :
  within_budget MAX (API_BUDGET (state s)) ->
  within_budget MAX (API_BUDGET (state (step rt MAX s l))).
Proof.
  intros Hw. destruct l as [eventId io|body now fails|io now fails|k|k| |times
                           |io|fetch now fails io]; cbn [step state].
  - destruct (string_eqb eventId ""); [done|]. by apply get_event_summary_within.
  - unfold internal_event. repeat case_match; done.
  - unfold reset. repeat case_match; try done.
    unfold_state. simpl. intros c'. destruct c'; simpl; lia.
  - unfold stream_open. by case_bool_decide.
  - done.
  - done.
  - done.
  - destruct (inflight s); [done|]. destruct (running (state s)); [|done].
    destruct (Queue.pop _ _) as [[[job|] q]|]; try exact Hw.
    unfold processJob_enter. case_bool_decide; [exact Hw|].
    destruct (Database.getSummaryByEventId _ _) as [[x|]|]; exact Hw.
  - destruct (inflight s) as [job|]; [|done].
    pose proof (processJob_complete_keeps_budget (state s) job fetch now fails io) as Hk.
    destruct (processJob_complete rt (state s) job fetch now fails io) as [[e|] st'];
      simpl in *; by rewrite Hk.
Qed.

Lemma run_within s steps :
  within_budget MAX (API_BUDGET (state s)) ->
  within_budget MAX (API_BUDGET (state (run rt MAX s steps))).
Proof.
  revert s. induction steps as [|l steps IH]; intros s Hw; simpl; [done|].
  apply IH, step_within, Hw.
Qed.

End BudgetFacts.

(** X7.  In every state the backend reaches from its start, each budget
    counter is at least zero and at most the ceiling: no more jobs than
    the ceiling are ever charged to a category between two resets. *)
Theorem budget_never_exceeds_ceiling (rt : Runtime) (MAX : Z) (key : string)
    (server_list : list QueueJob) (redisUrl : option string)
    (outcome : Queue.ConnectOutcome) (steps : list Step) (c : Category) :
  (0 <= budget_get
          (API_BUDGET (state (run rt MAX (booted key server_list redisUrl outcome) steps))) c)%Z
  /\ (budget_get
        (API_BUDGET (state (run rt MAX (booted key server_list redisUrl outcome) steps))) c
      <= Z.max 0 MAX)%Z.
Proof.
  apply run_within. unfold booted, start, worker_start, initial. simpl.
  intros c'. destruct (string_eqb key ""), c'; simpl; lia.
Qed.

(** ** The worker: what a turn leaves behind *)

(** X8.  [processJob] leaves the set of events in processing as it found it,
    however the job ends: skipped, summarised, requeued, dropped, or
    with an exception leaving the function. *)
Theorem processJob_restores_processing (rt : Runtime) (st : State) (job : QueueJob)
    (fetch : FetchOutcome) (now : string) (fails : nat -> bool) (io : Queue.RedisIo) :
  processingEvents (processJob rt st job fetch now fails io).2 = processingEvents st.
Proof.
  unfold processJob, processJob_enter.
  case_bool_decide as Hin; [done|].
  destruct (Database.getSummaryByEventId (db st) (eventId job)) as [[x|]|]; try done.
  assert (Hset : ({[eventId job]} ∪ processingEvents st) ∖ {[eventId job]}
                 = processingEvents st).
  { apply set_eq. intros x.
    rewrite elem_of_difference, elem_of_union, elem_of_singleton.
    split; [intros [[->|?] ?]; done | intros ?; split; [by right | by intros ->]]. }
  unfold processJob_complete.
  destruct (attempt rt _ job fetch now fails) as [st'|e] eqn:Ha.
  - apply attempt_inv in Ha as (? & ? & ? & ? & ? & ? & ? & _ & _ & _ & _ & _ & _ & ->).
    unfold broadcastSummary. destruct (truthy _); unfold_state; simpl; exact Hset.
  - cbn [set_processing db queue onError].
    destruct (is429 e); [destruct (Queue.push _ _ _)|destruct (onError st)];
      unfold_state; simpl; exact Hset.
Qed.

(** The job that a request enqueues. *)
Lemma request_enqueues_job (rt : Runtime) (MAX : Z)
    (st st' : State) (requested : string) (io : Queue.RedisIo) :
  requested ∉ pendingEvents st ->
  get_event_summary rt MAX st requested io = (Generating requested, st') ->
  exists job, eventId job = requested
    /\ Queue.jobs (queue st') = (Queue.jobs (queue st) ++ [job])%list.
Proof.
  intros Hp H. unfold get_event_summary in H.
  destruct (Database.getSummaryByEventId (db st) requested) as [[existing|]|]; [done| |done].
  rewrite bool_decide_eq_false_2 in H by done.
  destruct (Database.getEvent (db st) requested) as [[stored|]|]; [|done..].
  destruct (negb _); [done|].
  destruct (parse_event rt _) as [eventData|]; [|done].
  match type of H with context [match ?x with inl _ => _ | inr _ => _ end] =>
    destruct x as [repoContext|] end; [|done].
  match type of H with context [Queue.push ?q ?job ?io] =>
    destruct (Queue.push q job io) as [q'|] eqn:Hpush;
    [exists job|done] end.
  injection H as <-. split; [done|].
  unfold Queue.push in Hpush. unfold Queue.jobs. unfold_state. simpl in *.
  repeat case_match; simplify_eq/=; done.
Qed.

(** ** The request handler: how requests compose *)

(** X9.  Two requests in a row for the same event enqueue one job: when a
    request for an event that was not pending is answered "generating",
    a job for the event has been added at the tail of the queue, and
    every further request is answered "generating" and changes nothing. *)
Theorem repeated_request_enqueues_once (rt : Runtime) (MAX : Z) (st st' : State)
    (requested : string) (io io' : Queue.RedisIo) :
  requested ∉ pendingEvents st ->
  get_event_summary rt MAX st requested io = (Generating requested, st') ->
  (exists job, eventId job = requested
     /\ Queue.jobs (queue st') = (Queue.jobs (queue st) ++ [job])%list)
  /\ requested ∈ pendingEvents st'
  /\ get_event_summary rt MAX st' requested io' = (Generating requested, st').
Proof.
  intros Hp H.
  destruct (request_enqueues_job rt MAX st st' requested io Hp H)
    as (job & Hid & Hjobs).
  split; [by exists job|].
  unfold get_event_summary in H.
  destruct (Database.getSummaryByEventId (db st) requested) as [[existing|]|] eqn:Hs;
    [done| |done].
  rewrite bool_decide_eq_false_2 in H by done.
  destruct (Database.getEvent (db st) requested) as [[stored|]|]; [|done..].
  destruct (negb _); [done|].
  destruct (parse_event rt _) as [eventData|]; [|done].
  match type of H with context [match ?x with inl _ => _ | inr _ => _ end] =>
    destruct x as [repoContext|] end; [|done].
  match type of H with context [Queue.push ?q ?job ?io] =>
    destruct (Queue.push q job io) as [q'|] eqn:Hpush; [|done] end.
  injection H as <-.
  assert (Hin : requested ∈ {[requested]} ∪ pendingEvents st)
    by (apply elem_of_union; left; by apply elem_of_singleton).
  split; [exact Hin|].
  unfold get_event_summary. cbn [db set_queue incrementSummaryCount set_budget set_pending
                                 pendingEvents].
  rewrite Hs. by rewrite bool_decide_eq_true_2.
Qed.

Lemma repeated_request_enqueues_once_witness :
  get_event_summary example_runtime 10
    (get_event_summary example_runtime 10
       (state (run example_runtime 10 (booted "key" [] None Queue.Connected)
                 [InternalEvent (example_body "E1" "security") "t0" no_failure]))
       "E1" Queue.Replied).2
    "E1" Queue.Replied
  = (Generating "E1",
     (get_event_summary example_runtime 10
        (state (run example_runtime 10 (booted "key" [] None Queue.Connected)
                  [InternalEvent (example_body "E1" "security") "t0" no_failure]))
        "E1" Queue.Replied).2).
Proof.
  refine (proj2 (proj2 (repeated_request_enqueues_once example_runtime 10
            (state (run example_runtime 10 (booted "key" [] None Queue.Connected)
                      [InternalEvent (example_body "E1" "security") "t0" no_failure]))
            _ "E1" Queue.Replied Queue.Replied _ _))).
  - apply (bool_decide_unpack _). vm_compute. exact I.
  - vm_compute. reflexivity.
Defined.

(** ** The worker: a job that succeeds *)

Section WorkerFacts.

Context (rt : Runtime).


End WorkerFacts.



(** X11.  A job whose event has a stored summary (a double enqueue, a
    requeue that arrives after the summary was written) is skipped:
    whatever the completion API would answer, nothing is stored, sent or
    requeued and the state is left as it is. *)
Theorem completed_job_is_not_repeated (rt : Runtime) (st : State)
    (job : QueueJob) (fetch : FetchOutcome) (now : string)
    (fails : nat -> bool) (io : Queue.RedisIo) (row : Database.Summary) :
  Database.getSummaryByEventId (db st) (eventId job) = inl (Some row) ->
  processJob rt st job fetch now fails io = (None, st).
Proof.
  intros Hg. unfold processJob, processJob_enter.
  case_bool_decide; [done|]. by rewrite Hg.
Qed.

(** The job of an event is processed again after it has succeeded. *)
Lemma completed_job_is_not_repeated_witness :
  processJob example_runtime
    (processJob example_runtime (start (initial "key" []) None Queue.Connected)
       (example_job "E1") example_answer "t1" no_failure Queue.Replied).2
    (example_job "E1") (FetchResponse 429 "Too Many Requests" (inl JNull)) "t2"
    no_failure Queue.Replied
  = (None,
     (processJob example_runtime (start (initial "key" []) None Queue.Connected)
        (example_job "E1") example_answer "t1" no_failure Queue.Replied).2).
Proof.
  apply (completed_job_is_not_repeated example_runtime
           (processJob example_runtime (start (initial "key" []) None Queue.Connected)
              (example_job "E1") example_answer "t1" no_failure Queue.Replied).2
           (example_job "E1") (FetchResponse 429 "Too Many Requests" (inl JNull))
           "t2" no_failure Queue.Replied
           (Database.mkSummary 1 "E1" "PushEvent" "octo/repo" "octocat"
              "2024-01-01T00:00:00Z" "" "" "" "{}" "t1")).
  vm_compute. reflexivity.
Defined.

(** ** The handlers: failures of the queue *)

(** X12.  When the queue cannot be cleared (the Redis command is rejected, or
    the queue is not initialised), the reset answers with a failure
    after the store has been emptied: the budget counters, PendingSet,
    the queue and the subscribers are left as they were and no reset
    notice is sent. *)
Theorem reset_failure_is_partial (st : State) (io : Queue.RedisIo) (now : string)
    (fails : nat -> bool) (err : JsError) :
  initialized (db st) ->
  Queue.clear (queue st) io = inr err ->
  exists st',
    reset st io now fails = (ResetFailed, st')
    /\ Database.eventCount (db st') = 0%nat
    /\ Database.summaryCount (db st') = 0%nat
    /\ API_BUDGET st' = API_BUDGET st
    /\ pendingEvents st' = pendingEvents st
    /\ queue st' = queue st
    /\ sseClients st' = sseClients st
    /\ delivered st' = delivered st.
Proof.
  intros Hdb Hq. unfold reset, Database.clearAll, initialized in *.
  destruct (Database.db (db st)) as [c|]; [|done]. cbn [ret set_db queue].
  rewrite Hq. eexists. split; [reflexivity|]. done.
Qed.

Lemma reset_failure_is_partial_witness :
  exists st',
    reset
      (state (run example_runtime 10
                (booted "key" [] (Some "redis://cache:6379") Queue.Connected)
                [InternalEvent (example_body "E1" "security") "t0" no_failure;
                 SummaryRequest "E1" Queue.Replied]))
      (Queue.Rejected (Error "Connection is closed.")) "t9" no_failure
    = (ResetFailed, st')
    /\ Database.eventCount (db st') = 0%nat
    /\ API_BUDGET st' = mkBudget 1 0
    /\ Queue.jobs (queue st') = [example_job "E1"].
Proof.
  destruct (reset_failure_is_partial
              (state (run example_runtime 10
                        (booted "key" [] (Some "redis://cache:6379") Queue.Connected)
                        [InternalEvent (example_body "E1" "security") "t0" no_failure;
                         SummaryRequest "E1" Queue.Replied]))
              (Queue.Rejected (Error "Connection is closed.")) "t9" no_failure
              (Error "Connection is closed."))
    as (st' & Hr & He & _ & Hb & _ & Hq & _).
  - discriminate.
  - reflexivity.
  - exists st'. split; [exact Hr|]. split; [exact He|].
    split; [rewrite Hb | rewrite Hq]; reflexivity.
Defined.

(** X13.  When the push of the job fails, the request is answered with a
    failure although the event has already been put in PendingSet and
    charged to the budget: no job exists for it, and every later request
    for it is answered "generating" without enqueueing one. *)
Theorem failed_enqueue_keeps_event_pending (rt : Runtime) (MAX : Z) (st : State)
    (requested : string) (io io' : Queue.RedisIo) (stored : Database.Event)
    (data : GithubEvent) (context : JsVal) (err : JsError) :
  Database.getSummaryByEventId (db st) requested = inl None ->
  requested ∉ pendingEvents st ->
  Database.getEvent (db st) requested = inl (Some stored) ->
  canGenerateSummary MAX st (request_category (Database.category stored)) = true ->
  parse_event rt (Database.payload stored) = inl data ->
  match Database.repo_context stored with
  | Some text => if string_eqb text "" then inl JNull else JSON_parse rt text
  | None => inl JNull
  end = inl context ->
  (forall job, Queue.push (queue st) job io = inr err) ->
  exists st',
    get_event_summary rt MAX st requested io = (SummaryFailed, st')
    /\ pendingEvents st' = {[requested]} ∪ pendingEvents st
    /\ budget_get (API_BUDGET st') (request_category (Database.category stored))
       = (budget_get (API_BUDGET st) (request_category (Database.category stored)) + 1)%Z
    /\ queue st' = queue st
    /\ db st' = db st
    /\ get_event_summary rt MAX st' requested io' = (Generating requested, st').
Proof.
  intros Hs Hp He Hcan Hev Hctx Hpush. unfold get_event_summary.
  rewrite Hs. rewrite bool_decide_eq_false_2 by done. rewrite He, Hcan. cbn [negb].
  rewrite Hev, Hctx.
  cbn [queue incrementSummaryCount set_budget set_pending].
  rewrite Hpush. eexists. split; [reflexivity|].
  cbn [pendingEvents API_BUDGET queue db]. split; [done|]. split.
  { destruct (request_category _); reflexivity. }
  split; [done|]. split; [done|].
  unfold get_event_summary.
  cbn [db pendingEvents incrementSummaryCount set_budget set_pending].
  rewrite Hs. rewrite bool_decide_eq_true_2; [done|].
  apply elem_of_union. left. by apply elem_of_singleton.
Qed.

(** A request made after the stale client of a fallen-back queue has
    connected. *)
Lemma failed_enqueue_keeps_event_pending_witness :
  exists st',
    get_event_summary example_runtime 10
      (state (run example_runtime 10
                (booted "key" [] (Some "redis://cache:6379")
                   (Queue.ConnectFailed (Error "Connection is closed.")))
                [InternalEvent (example_body "E1" "security") "t0" no_failure;
                 RedisConnect]))
      "E1" Queue.Replied = (SummaryFailed, st')
    /\ API_BUDGET st' = mkBudget 1 0
    /\ get_event_summary example_runtime 10 st' "E1" Queue.Replied = (Generating "E1", st').
Proof.
  destruct (failed_enqueue_keeps_event_pending example_runtime 10
              (state (run example_runtime 10
                        (booted "key" [] (Some "redis://cache:6379")
                           (Queue.ConnectFailed (Error "Connection is closed.")))
                        [InternalEvent (example_body "E1" "security") "t0" no_failure;
                         RedisConnect]))
              "E1" Queue.Replied Queue.Replied
              (Database.mkEvent "E1" "PushEvent" "octo/repo" "octocat"
                 "2024-01-01T00:00:00Z" "E1" None None (Some "security") None "t0" 1)
              (example_event "E1") JNull Queue.not_initialized)
    as (st' & Hr & _ & Hb & _ & _ & Hg).
  - reflexivity.
  - apply (bool_decide_unpack _). vm_compute. exact I.
  - reflexivity.
  - reflexivity.
  - reflexivity.
  - reflexivity.
  - intros job. reflexivity.
  - exists st'. split; [exact Hr|]. split; [|exact Hg].
    vm_compute in Hr. injection Hr as <-. reflexivity.
Defined.

(** ** The completion call *)

(** X14.  [generateSummary] returns a text exactly when the response has a
    status from 200 to 299 and its content is a non-empty string; the
    text is then that content.  In every other case it throws. *)
Theorem generateSummary_returns (prompt : list PromptPart) (out : FetchOutcome)
    (text : string) :
  generateSummary prompt out = inl text
  <-> exists status statusText,
        out = FetchResponse status statusText (inl (JStr text))
        /\ (200 <= status)%Z /\ (status <= 299)%Z /\ text <> "".
Proof.
  unfold generateSummary, response_ok, string_eqb. split.
  - destruct out as [e|status statusText content]; [done|].
    destruct (200 <=? status)%Z eqn:H1; [|done].
    destruct (status <=? 299)%Z eqn:H2; [|done]. simpl.
    destruct content as [[| | | |c| | |]|e]; try done.
    case_bool_decide; [done|]. intros [= ->].
    exists status, statusText. split; [done|]. split; [lia|]. split; [lia | done].
  - intros (status & statusText & -> & H1 & H2 & Hne).
    rewrite (proj2 (Z.leb_le _ _) H1), (proj2 (Z.leb_le _ _) H2). simpl.
    by rewrite bool_decide_eq_false_2.
Qed.

(** ** POST /internal/event *)

(** What the handler does with an event that the store refuses. *)
Lemma internal_event_refused (rt : Runtime) (st : State) (body : EventBody)
    (now : string) (fails : nat -> bool) (ev : ReceivedEvent) :
  initialized (db st) ->
  body_event body = Some ev ->
  string_eqb (rc_id ev) "" = false ->
  (forall type created_at, ~ storable ev type created_at) ->
  exists st',
    internal_event rt st body now fails = (EventFailed, st')
    /\ (forall id, Database.getEvent (db st') id = Database.getEvent (db st) id)
    /\ normal_total (db st')
       = (normal_total (db st)
          + if bool_decide (body_category body = Some "normal") then 1 else 0)%Z
    /\ Database.summary_rows (db st') = Database.summary_rows (db st)
    /\ pendingEvents st' = pendingEvents st
    /\ API_BUDGET st' = API_BUDGET st
    /\ queue st' = queue st
    /\ sseClients st' = sseClients st
    /\ delivered st' = delivered st.
Proof.
  intros Hdb Hev Hid Hn. unfold internal_event. rewrite Hev, Hid.
  unfold initialized in Hdb.
  case_bool_decide as Hnormal.
  - unfold Database.incrementNormalCounter.
    destruct (Database.db (db st)) as [c|] eqn:Hc; [|done]. cbn [ret].
    match goal with |- context [Database.storeEvent rt ?d ?e ?a ?b ?k ?x ?n] =>
      destruct (storeEvent_refused rt d e a b k x n Hn) as [err ->] end.
    eexists. split; [reflexivity|]. unfold_state. cbn.
    unfold Database.getEvent, normal_total, Database.summary_rows. rewrite Hc. cbn.
    split_and!; done.
  - match goal with |- context [Database.storeEvent rt ?d ?e ?a ?b ?k ?x ?n] =>
      destruct (storeEvent_refused rt d e a b k x n Hn) as [err ->] end.
    eexists. split; [reflexivity|]. split_and!; try done. lia.
Qed.

(** X15.  A body without event, or whose event has an empty identifier, is
    refused and changes nothing.  An event that has its type and its
    creation time is stored under its identifier with the category of
    the body ('normal' when the body has none) and announced to the live
    subscribers; an event of category 'normal' is counted once and
    stored without repository context, whatever the body carries.  An
    event that lacks its type or its creation time is answered with a
    failure: nothing is stored or announced, but an event of category
    'normal' has been counted all the same.  Summaries, PendingSet,
    budget and queue are never touched. *)
Theorem internal_event_stores (rt : Runtime) (st : State) (body : EventBody)
    (now : string) (fails : nat -> bool) :
  initialized (db st) ->
  match body_event body with
  | None => internal_event rt st body now fails = (InvalidEvent, st)
  | Some ev =>
      if string_eqb (rc_id ev) "" then
        internal_event rt st body now fails = (InvalidEvent, st)
      else
        (forall type created_at,
           storable ev type created_at ->
           exists st' row notice,
             internal_event rt st body now fails
             = (if bool_decide (body_category body = Some "normal")
                then Counted (rc_id ev) else Stored (rc_id ev), st')
             /\ Database.getEvent (db st') (rc_id ev) = inl (Some row)
             /\ Database.type row = type
             /\ Database.created_at row = created_at
             /\ Database.category row = Some (category_or_normal (body_category body))
             /\ Database.payload row = stringify_event rt ev
             /\ Database.repo_context row
                = (if bool_decide (body_category body = Some "normal") then None
                   else if truthy (body_repoContext body)
                        then Some (JSON_stringify rt (body_repoContext body)) else None)
             /\ normal_total (db st')
                = (normal_total (db st)
                   + if bool_decide (body_category body = Some "normal") then 1 else 0)%Z
             /\ Database.summary_rows (db st') = Database.summary_rows (db st)
             /\ pendingEvents st' = pendingEvents st
             /\ API_BUDGET st' = API_BUDGET st
             /\ queue st' = queue st
             /\ sseClients st' = List.filter (fun c => negb (fails c)) (sseClients st)
             /\ en_event_id notice = rc_id ev
             /\ delivered st'
                = (delivered st
                   ++ List.map (fun c => (c, MsgEvent notice)) (sseClients st'))%list)
        /\ ((forall type created_at, ~ storable ev type created_at) ->
            exists st',
              internal_event rt st body now fails = (EventFailed, st')
              /\ (forall id, Database.getEvent (db st') id = Database.getEvent (db st) id)
              /\ normal_total (db st')
                 = (normal_total (db st)
                    + if bool_decide (body_category body = Some "normal") then 1 else 0)%Z
              /\ Database.summary_rows (db st') = Database.summary_rows (db st)
              /\ pendingEvents st' = pendingEvents st
              /\ API_BUDGET st' = API_BUDGET st
              /\ queue st' = queue st
              /\ sseClients st' = sseClients st
              /\ delivered st' = delivered st)
  end.
Proof.
  intros Hdb.
  destruct (body_event body) as [ev|] eqn:Hev; [|by unfold internal_event; rewrite Hev].
  destruct (string_eqb (rc_id ev) "") eqn:Hid;
    [by unfold internal_event; rewrite Hev, Hid|].
  split; [|by apply internal_event_refused].
  intros type created_at Hst.
  unfold internal_event. rewrite Hev, Hid.
  unfold initialized in Hdb.
  case_bool_decide as Hn.
  - unfold Database.incrementNormalCounter.
    destruct (Database.db (db st)) as [c|] eqn:Hc; [|done]. cbn [ret].
    destruct (storeEvent_row rt
                (Database.mk (Some (Database.mkConn (Database.events c)
                   (Database.summaries c) (Database.summaries_seq c)
                   (Database.normal_count c + 1) (Database.last_insert_rowid c))))
                ev type created_at (body_score body) (body_codeQualityScore body)
                (body_category body) JNull now)
      as (d' & row & Hs & Hg & _ & Hty & _ & _ & Hca & Hpay & _ & Hcat & Hctx & _ & _
          & Hsum & _);
      [done|exact Hst|].
    rewrite Hs.
    match goal with |- context [broadcastEvent _ ?n _] => eexists _, row, n end.
    split; [reflexivity|].
    unfold_state. cbn. split; [exact Hg|]. split; [exact Hty|]. split; [exact Hca|].
    split; [rewrite Hcat, Hn; reflexivity|]. split; [exact Hpay|].
    split; [exact Hctx|].
    split.
    { apply storeEvent_inv in Hs as (c' & ? & ? & Hc' & _ & _ & ->).
      simpl in Hc'. injection Hc' as <-. unfold normal_total. rewrite Hc. done. }
    split; [rewrite Hsum; unfold Database.summary_rows; by rewrite Hc|]. done.
  - destruct (storeEvent_row rt (db st) ev type created_at (body_score body)
                (body_codeQualityScore body)
                (Some (category_or_normal (body_category body)))
                (body_repoContext body) now Hdb Hst)
      as (d' & row & Hs & Hg & _ & Hty & _ & _ & Hca & Hpay & _ & Hcat & Hctx & _ & _
          & Hsum & _).
    unfold category_or_normal in Hs. rewrite Hs.
    match goal with |- context [broadcastEvent _ ?n _] => eexists _, row, n end.
    split; [reflexivity|].
    unfold_state. cbn. split; [exact Hg|]. split; [exact Hty|]. split; [exact Hca|].
    split; [exact Hcat|]. split; [exact Hpay|]. split; [exact Hctx|].
    split.
    { apply storeEvent_inv in Hs as (c' & ? & ? & Hc' & _ & _ & ->).
      unfold normal_total. rewrite Hc'. simpl. lia. }
    split; [exact Hsum|]. done.
Qed.

(** A normal event that comes with repository context, and one that
    comes without a type. *)
Lemma internal_event_stores_witness :
  (exists st' row,
     (internal_event example_runtime (start (initial "key" []) None Queue.Connected)
        (mkEventBody (Some (received (example_event "E7"))) None None (Some "normal")
           (JObj [("repo", JStr "octo/repo")])) "t0" no_failure)
     = (Counted "E7", st')
     /\ Database.getEvent (db st') "E7" = inl (Some row)
     /\ Database.repo_context row = None
     /\ normal_total (db st') = 1%Z)
  /\ (exists st',
        (internal_event example_runtime (start (initial "key" []) None Queue.Connected)
           (mkEventBody
              (Some (mkReceivedEvent "E8" Missing None None
                       (Text "2024-01-01T00:00:00Z") JNull))
              None None (Some "normal") JNull) "t0" no_failure)
        = (EventFailed, st')
        /\ Database.getEvent (db st') "E8" = inl None
        /\ normal_total (db st') = 1%Z).
Proof.
  split.
  - pose proof (internal_event_stores example_runtime
                  (start (initial "key" []) None Queue.Connected)
                  (mkEventBody (Some (received (example_event "E7"))) None None
                     (Some "normal") (JObj [("repo", JStr "octo/repo")]))
                  "t0" no_failure) as H.
    cbn [body_event] in H.
    change (string_eqb (rc_id (received (example_event "E7"))) "") with false in H.
    destruct H as [H _]; [discriminate|].
    destruct (H "PushEvent" "2024-01-01T00:00:00Z")
      as (st' & row & notice & Hr & Hg & _ & _ & _ & _ & Hctx & Hn & _).
    + split; reflexivity.
    + exists st', row. split; [exact Hr|]. split; [exact Hg|].
      split; [exact Hctx | exact Hn].
  - pose proof (internal_event_stores example_runtime
                  (start (initial "key" []) None Queue.Connected)
                  (mkEventBody
                     (Some (mkReceivedEvent "E8" Missing None None
                              (Text "2024-01-01T00:00:00Z") JNull))
                     None None (Some "normal") JNull) "t0" no_failure) as H.
    cbn [body_event] in H.
    change (string_eqb (rc_id (mkReceivedEvent "E8" Missing None None
                                 (Text "2024-01-01T00:00:00Z") JNull)) "")
      with false in H.
    destruct H as [_ H]; [discriminate|].
    destruct H as (st' & Hr & Hg & Hn & _).
    + intros type created_at [Ht _]. discriminate Ht.
    + exists st'. split; [exact Hr|]. split; [rewrite Hg; reflexivity | exact Hn].
Defined.

(** ** The prompt *)

Lemma length_append (a b : string) :
  String.length (a +:+ b) = (String.length a + String.length b)%nat.
Proof. induction a as [|c a IH]; simpl; [done | by rewrite IH]. Qed.

Lemma length_substring_0 (n : nat) (s : string) :
  (String.length (String.substring 0 n s) <= n)%nat.
Proof.
  revert s. induction n as [|n IH]; intros s; destruct s as [|c s]; simpl; try lia.
  specialize (IH s). lia.
Qed.

(** X16.  The payload of an event takes at most 2015 characters of the
    prompt, however large the event is: 2000 of its rendering and the
    marker of the cut; a rendering of at most 2000 characters is
    embedded whole. *)
Theorem buildPrompt_caps_payload (rt : Runtime) (job : QueueJob) (text : string) :
  EventPayload text ∈ buildPrompt rt job ->
  (String.length text <= 2015)%nat
  /\ ((String.length (JSON_stringify_indent2 rt (gh_payload (event job))) <= 2000)%nat ->
      text = JSON_stringify_indent2 rt (gh_payload (event job))).
Proof.
  unfold buildPrompt.
  remember 2000%nat as cap eqn:Hcap.
  rewrite !elem_of_app. intros [H|[H|[H|[H|[H|H]]]]].
  - apply list_elem_of_singleton in H. by destruct (bool_decide _).
  - by apply list_elem_of_singleton in H.
  - destruct (truthy _); [|by apply elem_of_nil in H].
    apply list_elem_of_singleton in H. injection H as ->.
    destruct (cap <? _)%nat eqn:Hlt.
    + apply Nat.ltb_lt in Hlt. split; [|lia].
      rewrite length_append. pose proof (length_substring_0 cap
        (JSON_stringify_indent2 rt (gh_payload (event job)))). simpl. lia.
    + apply Nat.ltb_ge in Hlt. split; [lia | done].
  - destruct (score job) as [s|]; [|by apply elem_of_nil in H].
    apply elem_of_app in H as [H|H]; [by apply list_elem_of_singleton in H|].
    destruct (features s); [by apply list_elem_of_singleton in H | by apply elem_of_nil in H].
  - destruct (truthy _); [by apply list_elem_of_singleton in H | by apply elem_of_nil in H].
  - apply list_elem_of_singleton in H. by destruct (bool_decide _).
Qed.

Lemma buildPrompt_caps_payload_witness :
  (String.length "{}" <= 2015)%nat.
Proof.
  refine (proj1 (buildPrompt_caps_payload example_runtime
            (mkQueueJob "E1"
               (mkGithubEvent "E1" "PushEvent" None None "2024-01-01T00:00:00Z"
                  (JObj [("ref", JStr "refs/heads/main")]))
               None JNull "2024-01-01T00:00:00Z" security) "{}" _)).
  vm_compute. do 2 apply list_elem_of_further. apply list_elem_of_here.
Defined.

(** ** The poller's set of seen events *)

Section SeenFacts.
Import PollerEvents.

Lemma has_true seen id : has seen id = true <-> id ∈ seen.
Proof. unfold has. rewrite bool_decide_eq_true. done. Qed.

Lemma add_elem seen id x : x ∈ add seen id <-> x ∈ seen \/ x = id.
Proof.
  unfold add. destruct (has seen id) eqn:E.
  - apply has_true in E. split; [auto|]. intros [?| ->]; done.
  - rewrite elem_of_app, list_elem_of_singleton. done.
Qed.

Lemma add_NoDup seen id : NoDup seen -> NoDup (add seen id).
Proof.
  intros H. unfold add. destruct (has seen id) eqn:E; [done|].
  apply NoDup_app. split_and!; [done| |apply NoDup_singleton].
  intros x Hx ->%list_elem_of_singleton.
  apply has_true in Hx. congruence.
Qed.

Lemma foldl_add_elem ids : forall seen x,
  x ∈ foldl add seen ids <-> x ∈ seen \/ x ∈ ids.
Proof.
  induction ids as [|i ids IH]; intros seen x; simpl.
  - rewrite elem_of_nil. tauto.
  - rewrite IH, add_elem, elem_of_cons. tauto.
Qed.

Lemma foldl_add_NoDup ids : forall seen, NoDup seen -> NoDup (foldl add seen ids).
Proof.
  induction ids as [|i ids IH]; intros seen H; simpl; [done|].
  apply IH, add_NoDup, H.
Qed.

(** The identifiers added by a fold are appended, at most one each. *)
Lemma foldl_add_app ids : forall seen,
  exists added, foldl add seen ids = (seen ++ added)%list /\ (length added <= length ids)%nat.
Proof.
  induction ids as [|i ids IH]; intros seen; simpl.
  - exists []. rewrite app_nil_r. split; [done|simpl; lia].
  - destruct (IH (add seen i)) as (added & -> & Hlen).
    unfold add. destruct (has seen i).
    + exists added. split; [done|lia].
    + exists (i :: added). rewrite <- app_assoc. split; [done|simpl; lia].
Qed.

Lemma slice_last_NoDup {A} n (xs : list A) : NoDup xs -> NoDup (slice_last n xs).
Proof. intros H. unfold slice_last. eapply sublist_NoDup; [done|apply sublist_drop]. Qed.

Lemma slice_last_length {A} n (xs : list A) : (length (slice_last n xs) <= n)%nat.
Proof. unfold slice_last. rewrite length_drop. lia. Qed.

Lemma slice_last_app {A} n (xs ys : list A) x :
  (length ys <= n)%nat -> x ∈ ys -> x ∈ slice_last n (xs ++ ys)%list.
Proof.
  intros Hlen Hx. unfold slice_last. rewrite length_app.
  destruct (decide (length xs + length ys - n <= length xs)%nat) as [Hle|Hgt].
  - rewrite drop_app_le by done. apply elem_of_app. by right.
  - lia.
Qed.

Lemma newEvents_elem seen events e :
  e ∈ newEvents seen events <-> e ∈ events /\ gh_id e ∉ seen.
Proof.
  unfold newEvents. rewrite list_elem_of_In, filter_In, <- list_elem_of_In.
  rewrite negb_true_iff, <- not_true_iff_false, has_true. done.
Qed.

Lemma handle_events_NoDup seen events t :
  NoDup seen -> NoDup (handle_events seen events t).2.
Proof.
  intros H. unfold handle_events.
  case_bool_decide; [|done].
  destruct t; simpl; [|by apply foldl_add_NoDup..].
  case_bool_decide; [apply slice_last_NoDup|]; by apply foldl_add_NoDup.
Qed.

Lemma handle_events_length seen events :
  (length seen <= 1000)%nat ->
  (length (handle_events seen events Handled).2 <= 1000)%nat.
Proof.
  intros H. unfold handle_events.
  case_bool_decide; [|done]. simpl.
  case_bool_decide; [apply slice_last_length|lia].
Qed.

End SeenFacts.

(** X17.  However many pages the poller handles, as long as the handling
    of each runs to its end, the set of seen identifiers never holds more
    than a thousand of them, and holds none twice. *)
Theorem seenEventIds_stays_bounded (pages : list (list GithubEvent)) :
  let seen := foldl (fun seen events =>
                       (PollerEvents.handle_events seen events PollerEvents.Handled).2)
                [] pages in
  (length seen <= 1000)%nat /\ NoDup seen.
Proof.
  simpl.
  assert (forall seen, (length seen <= 1000)%nat /\ NoDup seen ->
            (length (foldl (fun seen events =>
                       (PollerEvents.handle_events seen events PollerEvents.Handled).2) seen pages)
               <= 1000)%nat /\
            NoDup (foldl (fun seen events =>
                       (PollerEvents.handle_events seen events PollerEvents.Handled).2) seen pages))
    as H.
  { induction pages as [|events pages IH]; intros seen [Hlen Hnd]; simpl; [done|].
    apply IH. split; [by apply handle_events_length|by apply handle_events_NoDup]. }
  apply H. split; [simpl; lia|apply NoDup_nil_2].
Qed.

(** X18.  An event that a page brought as new is not sent again for the
    page that follows, whatever that page holds and however the handling
    of either page ends: its identifier is still in the set, provided the
    page had at most a thousand new events. *)
Theorem new_event_is_sent_once (seen : list string) (events events' : list GithubEvent)
    (t t' : PollerEvents.Outcome) (e : GithubEvent) :
  (length (PollerEvents.newEvents seen events) <= 1000)%nat ->
  e ∈ PollerEvents.newEvents seen events ->
  forall e', e' ∈ (PollerEvents.handle_events
                     (PollerEvents.handle_events seen events t).2 events' t').1 ->
             gh_id e' <> gh_id e.
Proof.
  intros Hlen He e' He' Heq.
  assert (gh_id e ∈ (PollerEvents.handle_events seen events t).2) as Hseen.
  { unfold PollerEvents.handle_events.
    assert (gh_id e ∈ gh_id <$> PollerEvents.newEvents seen events) as Hid
      by (apply list_elem_of_fmap; eauto).
    case_bool_decide as Hnew.
    - destruct (foldl_add_app (gh_id <$> PollerEvents.newEvents seen events) seen)
        as (added & Hadd & Hadded).
      rewrite length_fmap in Hadded.
      assert (gh_id e ∈ added) as Hin.
      { assert (gh_id e ∈ (seen ++ added)%list) as Hx
          by (rewrite <- Hadd; apply foldl_add_elem; by right).
        apply elem_of_app in Hx as [Hx|Hx]; [|done].
        apply newEvents_elem in He as [_ Hn]. done. }
      destruct t; simpl.
      + case_bool_decide.
        * rewrite Hadd. apply slice_last_app; [lia|done].
        * apply foldl_add_elem. by right.
      + apply foldl_add_elem. by right.
      + apply foldl_add_elem. by right.
    - destruct (PollerEvents.newEvents seen events); [by apply elem_of_nil in He|].
      simpl in Hnew. lia. }
  assert (e' ∈ PollerEvents.newEvents (PollerEvents.handle_events seen events t).2 events')
    as Hnew'.
  { revert He'. unfold PollerEvents.handle_events at 1.
    case_bool_decide; [|by intros ?%elem_of_nil].
    destruct t'; simpl; [done|by intros ?%elem_of_nil|done]. }
  apply newEvents_elem in Hnew' as [_ Hn]. rewrite Heq in Hn. done.
Qed.

Lemma new_event_is_sent_once_witness :
  Forall (fun e' => gh_id e' <> gh_id (example_event "b"))
    (PollerEvents.handle_events
       (PollerEvents.handle_events ["a"] [example_event "a"; example_event "b"]
          PollerEvents.LoggingThrew).2
       [example_event "b"; example_event "c"] PollerEvents.Handled).1.
Proof.
  apply Forall_forall.
  apply (new_event_is_sent_once ["a"] [example_event "a"; example_event "b"]
           [example_event "b"; example_event "c"]
           PollerEvents.LoggingThrew PollerEvents.Handled (example_event "b")).
  - vm_compute. lia.
  - vm_compute. apply list_elem_of_here.
Defined.

(** X19.  When a scoring step rejects, nothing of the page is sent to the
    backend, and every new event of the page is marked as seen all the
    same: the page that follows does not bring it back. *)
Theorem failed_scoring_drops_the_page (seen : list string) (events : list GithubEvent) :
  let r := PollerEvents.handle_events seen events PollerEvents.ScoringRejected in
  r.1 = [] /\
  forall e, e ∈ events -> PollerEvents.has r.2 (gh_id e) = true.
Proof.
  simpl. unfold PollerEvents.handle_events.
  case_bool_decide as Hnew.
  - split; [done|]. intros e He. simpl. apply has_true, foldl_add_elem.
    destruct (decide (gh_id e ∈ seen)) as [?|Hn]; [by left|right].
    apply list_elem_of_fmap. exists e. split; [done|]. by apply newEvents_elem.
  - split; [done|]. intros e He. simpl. apply has_true.
    destruct (decide (gh_id e ∈ seen)) as [?|Hn]; [done|].
    assert (e ∈ PollerEvents.newEvents seen events) as Hin by by apply newEvents_elem.
    destruct (PollerEvents.newEvents seen events); [by apply elem_of_nil in Hin|].
    simpl in Hnew. lia.
Qed.

Lemma failed_scoring_drops_the_page_witness :
  (PollerEvents.handle_events ["a"] [example_event "b"]
     PollerEvents.ScoringRejected).1 = [] /\
  PollerEvents.has (PollerEvents.handle_events ["a"] [example_event "b"]
                      PollerEvents.ScoringRejected).2 "b" = true.
Proof.
  destruct (failed_scoring_drops_the_page ["a"] [example_event "b"]) as [H1 H2].
  split; [exact H1|]. apply (H2 (example_event "b")). apply list_elem_of_here.
Defined.

(** ** The client of the summary endpoint *)

Section ClientFacts.
Import BackendStream.

Lemma generating_inv r :
  generating r = true ->
  exists status statusText data,
    r = Response status statusText (inl data) /\
    response_ok status = true /\ is_generating data = inl true.
Proof.
  destruct r as [e|status statusText [data|e]]; simpl; try done.
  intros [Hok Hgen]%andb_true_iff.
  exists status, statusText, data. split_and!; [done..|].
  destruct (is_generating data) as [[]|]; done.
Qed.

Lemma pollForSummary_generating replies sent attempts :
  (attempts <= 30)%nat -> generating (replies sent) = true ->
  pollForSummary replies sent attempts = pollForSummary replies (S sent) (S attempts).
Proof.
  intros Hle (status & statusText & data & Hr & Hok & Hgen)%generating_inv.
  rewrite pollForSummary_equation_1.
  destruct (decide (30 < attempts)%nat) as [?|?]; [lia|]. simpl.
  rewrite Hr, Hok, Hgen. done.
Qed.

Lemma pollForSummary_answer replies sent attempts status statusText data :
  (attempts <= 30)%nat ->
  replies sent = Response status statusText (inl data) ->
  response_ok status = true -> is_generating data = inl false ->
  pollForSummary replies sent attempts = (ret data, S sent).
Proof.
  intros Hle Hr Hok Hgen.
  rewrite pollForSummary_equation_1.
  destruct (decide (30 < attempts)%nat) as [?|?]; [lia|]. simpl.
  rewrite Hr, Hok, Hgen. done.
Qed.

(** While the replies say 'generating', polling goes on. *)
Lemma pollForSummary_skip replies k : forall sent attempts,
  (attempts + k <= 31)%nat ->
  (forall n, (sent <= n < sent + k)%nat -> generating (replies n) = true) ->
  pollForSummary replies sent attempts
  = pollForSummary replies (sent + k) (attempts + k).
Proof.
  induction k as [|k IH]; intros sent attempts Hle Hgen.
  - by rewrite !Nat.add_0_r.
  - rewrite pollForSummary_generating by (try apply Hgen; lia).
    rewrite IH by (try (intros n Hn; apply Hgen); lia).
    f_equal; lia.
Qed.

Lemma getEventSummary_generating replies :
  generating (replies 0%nat) = true ->
  getEventSummary replies = pollForSummary replies 1 0.
Proof.
  intros (status & statusText & data & Hr & Hok & Hgen)%generating_inv.
  unfold getEventSummary. rewrite Hr, Hok, Hgen. done.
Qed.

End ClientFacts.

(** X20.  The client gives up after thirty-two requests: the one of
    [getEventSummary] and thirty-one of [pollForSummary].  When each of
    them is answered with 'generating', the call throws 'Summary
    generation timed out' and no further request is made. *)
Theorem getEventSummary_times_out (replies : nat -> BackendStream.Reply) :
  (forall n, (n < 32)%nat -> BackendStream.generating (replies n) = true) ->
  BackendStream.getEventSummary replies
  = (throw (Error "Summary generation timed out"), 32%nat).
Proof.
  intros Hgen.
  rewrite getEventSummary_generating by (apply Hgen; lia).
  rewrite (pollForSummary_skip replies 31 1 0) by (try (intros n Hn; apply Hgen); lia).
  simpl. rewrite BackendStream.pollForSummary_equation_1.
  destruct (decide (30 < 31)%nat) as [?|?]; [done|lia].
Qed.

Lemma getEventSummary_times_out_witness :
  BackendStream.getEventSummary
    (fun _ => BackendStream.Response 200 "OK"
                (inl (JObj [("status", JStr "generating"); ("eventId", JStr "E1")])))
  = (throw (Error "Summary generation timed out"), 32%nat).
Proof.
  apply (getEventSummary_times_out
           (fun _ => BackendStream.Response 200 "OK"
                       (inl (JObj [("status", JStr "generating"); ("eventId", JStr "E1")])))).
  intros n Hn. vm_compute. reflexivity.
Defined.

(** X21.  The client returns the first answer that does not say
    'generating', as long as it comes with one of the first thirty-two
    requests, and stops asking there. *)
Theorem getEventSummary_returns_first_answer (replies : nat -> BackendStream.Reply)
    (k : nat) (status : Z) (statusText : string) (data : JsVal) :
  (k < 32)%nat ->
  (forall n, (n < k)%nat -> BackendStream.generating (replies n) = true) ->
  replies k = BackendStream.Response status statusText (inl data) ->
  response_ok status = true ->
  BackendStream.is_generating data = inl false ->
  BackendStream.getEventSummary replies = (ret data, S k).
Proof.
  intros Hk Hgen Hr Hok Hans.
  destruct k as [|k].
  - unfold BackendStream.getEventSummary. rewrite Hr, Hok, Hans. done.
  - rewrite getEventSummary_generating by (apply Hgen; lia).
    rewrite (pollForSummary_skip replies k 1 0) by (try (intros n Hn; apply Hgen); lia).
    simpl. rewrite (pollForSummary_answer _ _ _ status statusText data); [done|lia|done..].
Qed.

Lemma getEventSummary_returns_first_answer_witness :
  BackendStream.getEventSummary
    (fun n => if bool_decide (n < 31)%nat
              then BackendStream.Response 200 "OK" (inl (JObj [("status", JStr "generating")]))
              else BackendStream.Response 200 "OK" (inl (JObj [("event_id", JStr "E1")])))
  = (ret (JObj [("event_id", JStr "E1")]), 32%nat).
Proof.
  apply (getEventSummary_returns_first_answer
           (fun n => if bool_decide (n < 31)%nat
                     then BackendStream.Response 200 "OK"
                            (inl (JObj [("status", JStr "generating")]))
                     else BackendStream.Response 200 "OK"
                            (inl (JObj [("event_id", JStr "E1")])))
           31 200 "OK" (JObj [("event_id", JStr "E1")])).
  - lia.
  - intros n Hn. simpl. rewrite bool_decide_true by done. vm_compute. reflexivity.
  - reflexivity.
  - reflexivity.
  - reflexivity.
Defined.

(** ** The cache of repository contexts *)

Section RepoContextFacts.
Import RepoContextFetcher.

Lemma cached_clearOldCache f repo now0 now :
  now0 <= now -> cached (clearOldCache f now0) repo now = cached f repo now.
Proof.
  intros Hle. unfold cached, clearOldCache. simpl.
  destruct (cache f !! repo) as [[data timestamp]|] eqn:E.
  - destruct (decide (now0 - timestamp > CACHE_TTL)) as [Hold|Hyoung].
    + rewrite map_lookup_filter_None_2; [|right; intros x Hx; simplify_eq/=; tauto].
      rewrite bool_decide_false by lia. done.
    + rewrite (map_lookup_filter_Some_2 _ _ repo (data, timestamp)) by done. done.
  - rewrite map_lookup_filter_None_2; [done|by left].
Qed.

End RepoContextFacts.

(** X22.  Sweeping the cache never changes what [fetchRepoContext]
    answers afterwards: an entry that [clearOldCache] removes is one
    that [fetchRepoContext] would no longer answer from. *)
Theorem clearOldCache_keeps_answers (f : RepoContextFetcher.t) (repo : string)
    (now0 now now' : Z) (out : RepoContextFetcher.Requested) :
  now0 <= now ->
  (RepoContextFetcher.fetchRepoContext
     (RepoContextFetcher.clearOldCache f now0) repo now now' out).1
  = (RepoContextFetcher.fetchRepoContext f repo now now' out).1.
Proof.
  intros Hle. unfold RepoContextFetcher.fetchRepoContext.
  rewrite cached_clearOldCache by done.
  destruct (RepoContextFetcher.cached f repo now); [done|].
  replace (RepoContextFetcher.hasGraphQLCapacity
             (RepoContextFetcher.clearOldCache f now0) 50 now')
    with (RepoContextFetcher.hasGraphQLCapacity f 50 now') by done.
  destruct (RepoContextFetcher.hasGraphQLCapacity f 50 now'); [|done]. simpl.
  destruct (RepoContextFetcher.owner_and_name repo); [|done]. simpl.
  destruct out; done.
Qed.

Lemma clearOldCache_keeps_answers_witness :
  (RepoContextFetcher.fetchRepoContext
     (RepoContextFetcher.clearOldCache
        (RepoContextFetcher.mk
           {[ "octo/repo" :=
                (RepoContextFetcher.mkRepoContext "octo/repo" 400 12 false true true 5 8 None,
                 1000) ]} None) 301000)
     "octo/repo" 301000 301000 (RepoContextFetcher.NoContext None)).1
  = (RepoContextFetcher.fetchRepoContext
       (RepoContextFetcher.mk
          {[ "octo/repo" :=
               (RepoContextFetcher.mkRepoContext "octo/repo" 400 12 false true true 5 8 None,
                1000) ]} None)
       "octo/repo" 301000 301000 (RepoContextFetcher.NoContext None)).1.
Proof.
  apply (clearOldCache_keeps_answers
           (RepoContextFetcher.mk
              {[ "octo/repo" :=
                   (RepoContextFetcher.mkRepoContext "octo/repo" 400 12 false true true 5 8
                      None, 1000) ]} None)
           "octo/repo" 301000 301000 301000 (RepoContextFetcher.NoContext None)).
  lia.
Defined.

(** X23.  A context that was fetched is answered from the cache for the
    five minutes after the time it was stored at, without a request and
    whatever the rate limit is by then. *)
Theorem fetched_context_is_cached (f : RepoContextFetcher.t) (repo : string)
    (now now' : Z) (rateLimit : option RepoContextFetcher.RateLimit)
    (context : RepoContextFetcher.RepoContext) (timestamp : Z) :
  RepoContextFetcher.cached f repo now = None ->
  RepoContextFetcher.hasGraphQLCapacity f 50 now' = true ->
  RepoContextFetcher.owner_and_name repo = true ->
  let r := RepoContextFetcher.fetchRepoContext f repo now now'
             (RepoContextFetcher.Context rateLimit context timestamp) in
  r.1 = Some context /\
  forall later later' out,
    later - timestamp < RepoContextFetcher.CACHE_TTL ->
    RepoContextFetcher.fetchRepoContext r.2 repo later later' out = (Some context, r.2).
Proof.
  intros Hmiss Hcap Hname r.
  assert (r = (Some context,
               RepoContextFetcher.mk
                 (<[repo := (context, timestamp)]> (RepoContextFetcher.cache f))
                 (RepoContextFetcher.noted f rateLimit))) as ->.
  { unfold r, RepoContextFetcher.fetchRepoContext. rewrite Hmiss, Hcap, Hname. done. }
  split; [done|].
  intros later later' out Hyoung.
  unfold RepoContextFetcher.fetchRepoContext, RepoContextFetcher.cached. simpl.
  rewrite lookup_insert_eq. rewrite bool_decide_true by done. done.
Qed.

Lemma fetched_context_is_cached_witness :
  (RepoContextFetcher.fetchRepoContext RepoContextFetcher.new "octo/repo" 1000 1000
     (RepoContextFetcher.Context None
        (RepoContextFetcher.mkRepoContext "octo/repo" 400 12 false true true 5 8 None)
        1200)).1
  = Some (RepoContextFetcher.mkRepoContext "octo/repo" 400 12 false true true 5 8 None).
Proof.
  refine (proj1 (fetched_context_is_cached RepoContextFetcher.new "octo/repo" 1000 1000 None
                   (RepoContextFetcher.mkRepoContext "octo/repo" 400 12 false true true 5 8
                      None) 1200 _ _ _)).
  - reflexivity.
  - reflexivity.
  - vm_compute. reflexivity.
Defined.

(** X24.  The contextual risk of an event lies between 0 and 1, whatever
    the context and the type of the event. *)
Theorem calculateContextualRisk_bounded (context : RepoContextFetcher.RepoContext)
    (eventType : string) :
  (0 <= RepoContextFetcher.calculateContextualRisk context eventType)%Q /\
  (RepoContextFetcher.calculateContextualRisk context eventType <= 1)%Q.
Proof.
  unfold RepoContextFetcher.calculateContextualRisk.
  split; [|apply Q.le_min_r].
  apply Q.min_glb; [|done].
  repeat match goal with
         | |- context [if ?b then _ else _] => destruct b
         | |- context [match ?o with Some _ => _ | None => _ end] => destruct o
         end; lra.
Qed.

(** ** The parser of the worker: what it returns

    The conversion of the classification to a key of the table is the
    one step of the parser that can throw once the answer is parsed. *)

(** X25.  When a JSON object has been extracted from the answer and
    parsed and its classification can be converted to a text (it is no
    object with a [toString] property of its own, and holds none), the
    parser returns: a classification found in the fixed table is
    replaced by the security value of the table, one of the three
    canonical values is kept, and anything else becomes
    POLICY_VIOLATION.  When the classification cannot be converted, the
    parser throws. *)
Theorem classification_is_normalized (rt : Runtime) (text jsonStr : string)
    (fields : list (string * JsVal)) :
  extract_json rt text = Some jsonStr ->
  JSON_parse rt jsonStr = inl (JObj fields) ->
  match toString (or_else (prop "classification" (JObj fields))
                    (JStr "POLICY_VIOLATION")) with
  | Some key =>
      exists result,
        parseSummaryResponse rt text = inl result
        /\ classification result
           = match classification_table key with
             | Some value => JStr value
             | None =>
                 if validClasses_includes
                      (or_else (prop "classification" (JObj fields))
                         (JStr "POLICY_VIOLATION"))
                 then or_else (prop "classification" (JObj fields))
                        (JStr "POLICY_VIOLATION")
                 else JStr "POLICY_VIOLATION"
             end
        /\ (classification result = JStr "ACTIVE_ATTACK"
            \/ classification result = JStr "POLICY_VIOLATION"
            \/ classification result = JStr "BENIGN_ANOMALY")
  | None =>
      exists e, parseSummaryResponse rt text = inr e
  end.
Proof.
  intros Hx Hp.
  set (given := or_else (prop "classification" (JObj fields)) (JStr "POLICY_VIOLATION")).
  destruct (toString given) as [key|] eqn:Hk.
  - unfold parseSummaryResponse, normalize. rewrite Hx, Hp.
    cbn [bind nullish ret]. fold given. rewrite Hk.
    eexists. split; [reflexivity|]. cbn [classification].
    pose proof (normalized_classification given key Hk) as Hn. cbn zeta in Hn.
    split; [exact Hn|].
    rewrite Hn. unfold classification_table.
    destruct (string_eqb key "CRITICAL_ISSUE"); [tauto|].
    destruct (string_eqb key "POOR_PRACTICE"); [tauto|].
    destruct (string_eqb key "MINOR_CONCERN"); [tauto|].
    destruct (validClasses_includes given) eqn:Hv; [|tauto].
    by apply validClasses_includes_str.
  - eexists. by apply (unconvertible_classification_throws rt text jsonStr fields).
Qed.

(** The answer of a code-quality review, without a code fence. *)
Lemma classification_is_normalized_witness :
  exists result,
    parseSummaryResponse example_runtime critical_answer = inl result
    /\ classification result = JStr "ACTIVE_ATTACK".
Proof.
  pose proof (classification_is_normalized example_runtime critical_answer critical_answer
                [("classification", JStr "CRITICAL_ISSUE")]) as H.
  destruct H as (result & Hr & Hc & _).
  - vm_compute. reflexivity.
  - vm_compute. reflexivity.
  - exists result. split; [exact Hr | exact Hc].
Defined.
